(** * car666: vehicle physics, ground sampling and camera rig of [main.js]

    A shallow embedding of the simulation core of [src/main.js] (the
    module-level [vehicle], [keys], [chaseCam] objects and the functions
    [getGroundHeightAt], [physicsStep], [resetVehicle], [toggleCamera],
    [updateCamera], the keyboard listeners and the render loop) together
    with the properties the specification states about them and further
    properties read off the code.

    Numbers.  JavaScript numbers are modelled as the real numbers [R]:
    every arithmetic operator and every [Math] function is read as the
    exact mathematical operation.  Where a property turns on rounding,
    the same source lines are given twice more: in [Binary64], over the
    kernel's binary64 numbers, to evaluate them at concrete inputs, and
    with an explicit rounding function after each operation
    ([lerpRounded]), to bound what rounding can do.  Infinities and NaN
    are outside the model.

    Objects.  [THREE.Vector3] and [THREE.Quaternion] are records of
    reals; a method that mutates its receiver becomes a function that
    returns the new value.  The nullable [vehicle.mesh] is an [option].
    The module-level variables form the record [World]. *)

From Stdlib Require Import Reals Zfloor Lra Psatz List Bool Ascii String.
From Stdlib Require PrimFloat.
Import ListNotations.

Local Open Scope R_scope.

(** ** The parts of three.js (r156) the program calls *)

Module Three.

Record Vector3 : Type := vec3 { vx : R; vy : R; vz : R }.

Record Quaternion : Type := quat { qx : R; qy : R; qz : R; qw : R }.

(** [Math.sign]. *)
Definition sign (x : R) : R :=
  if Rlt_dec 0 x then 1 else if Rlt_dec x 0 then -1 else 0.

(** [MathUtils.lerp(x, y, t)]: [(1 - t) * x + t * y], evaluated
    exactly.  The binary64 evaluation, which rounds each operation and
    can leave the interval between [x] and [y] by an ulp, is
    [Binary64.lerp]; [lerpRounded] bounds it. *)
Definition lerp (x y t : R) : R := (1 - t) * x + t * y.

(** [a.add(b)]. *)
Definition add (a b : Vector3) : Vector3 :=
  vec3 (vx a + vx b) (vy a + vy b) (vz a + vz b).

(** [a.multiplyScalar(s)]. *)
Definition multiplyScalar (a : Vector3) (s : R) : Vector3 :=
  vec3 (vx a * s) (vy a * s) (vz a * s).

(** [a.divideScalar(s)] is [a.multiplyScalar(1 / s)]. *)
Definition divideScalar (a : Vector3) (s : R) : Vector3 :=
  multiplyScalar a (1 / s).

(** [a.addScaledVector(b, s)]. *)
Definition addScaledVector (a b : Vector3) (s : R) : Vector3 :=
  vec3 (vx a + vx b * s) (vy a + vy b * s) (vz a + vz b * s).

(** [a.dot(b)]. *)
Definition dot (a b : Vector3) : R :=
  vx a * vx b + vy a * vy b + vz a * vz b.

(** [a.length()]. *)
Definition length (a : Vector3) : R :=
  sqrt (vx a * vx a + vy a * vy a + vz a * vz a).

(** [a.normalize()]: [a.divideScalar(a.length() || 1)]. *)
Definition normalize (a : Vector3) : Vector3 :=
  divideScalar a (if Req_dec_T (length a) 0 then 1 else length a).

(** [a.lerp(b, alpha)]: each component moves by [(b - a) * alpha]. *)
Definition lerpV (a b : Vector3) (alpha : R) : Vector3 :=
  vec3 (vx a + (vx b - vx a) * alpha)
       (vy a + (vy b - vy a) * alpha)
       (vz a + (vz b - vz a) * alpha).

(** [v.applyQuaternion(q)]: the product [q * v] followed by the
    product with the conjugate of [q]. *)
Definition applyQuaternion (v : Vector3) (q : Quaternion) : Vector3 :=
  let x := vx v in let y := vy v in let z := vz v in
  let ix := qw q * x + qy q * z - qz q * y in
  let iy := qw q * y + qz q * x - qx q * z in
  let iz := qw q * z + qx q * y - qy q * x in
  let iw := - qx q * x - qy q * y - qz q * z in
  vec3 (ix * qw q + iw * - qx q + iy * - qz q - iz * - qy q)
       (iy * qw q + iw * - qy q + iz * - qx q - ix * - qz q)
       (iz * qw q + iw * - qz q + ix * - qy q - iy * - qx q).

(** [new Quaternion().setFromAxisAngle(axis, angle)]. *)
Definition setFromAxisAngle (axis : Vector3) (angle : R) : Quaternion :=
  let halfAngle := angle / 2 in
  let s := sin halfAngle in
  quat (vx axis * s) (vy axis * s) (vz axis * s) (cos halfAngle).

(** [r.multiplyQuaternions(a, b)]: the product [a * b]. *)
Definition multiplyQuaternions (a b : Quaternion) : Quaternion :=
  quat (qx a * qw b + qw a * qx b + qy a * qz b - qz a * qy b)
       (qy a * qw b + qw a * qy b + qz a * qx b - qx a * qz b)
       (qz a * qw b + qw a * qz b + qx a * qy b - qy a * qx b)
       (qw a * qw b - qx a * qx b - qy a * qy b - qz a * qz b).

Definition zero : Vector3 := vec3 0 0 0.

(** The rotation a fresh object carries, [(0, 0, 0, 1)]. *)
Definition identity : Quaternion := quat 0 0 0 1.

(** A ray handed to the raycaster, and one entry of the array
    [intersectObject] returns (only [point] is read). *)
Record Ray : Type := ray { origin : Vector3; direction : Vector3 }.

Record Intersection : Type := hit { distance : R; point : Vector3 }.

(** The camera: the program writes [position] directly and the
    rotation through [lookAt]. *)
Record Camera : Type := camera_at { cam_position : Vector3; cam_quaternion : Quaternion }.

(** [OrbitControls]: the look target and the [enabled] switch. *)
Record Controls : Type := orbit { target : Vector3; enabled : bool }.

End Three.

Import Three.

(** The services of the rendering engine whose result depends on scene
    geometry or on engine internals: the terrain ray test
    ([raycaster.intersectObject(ground)], hits ordered nearest first),
    [camera.lookAt] (the rotation of a camera at [eye] looking at a
    point) and [controls.update()]. *)
Class Engine : Type := {
  intersectGround : Ray -> list Intersection;
  lookAtRotation : Vector3 -> Vector3 -> Quaternion;
  controlsUpdate : Controls -> Camera -> Controls * Camera
}.

(** ** Data model *)

(** What the program reads of the visual vehicle object. *)
Record Mesh : Type := mkMesh {
  mesh_position : Vector3;
  mesh_quaternion : Quaternion
}.

(** The [vehicle] object, main.js lines 88-98. *)
Record Vehicle : Type := mkVehicle {
  mesh : option Mesh;
  position : Vector3;
  velocity : Vector3;
  steerAngle : R;
  mass : R;
  wheelBase : R;
  maxSteer : R;
  dragCoef : R;
  rollingResistance : R
}.

(** The [keys] object, main.js line 147. *)
Record Keys : Type := mkKeys {
  forward : bool;
  back : bool;
  left : bool;
  right : bool;
  handbrake : bool
}.

(** The vehicle as the module creates it. *)
Definition vehicle0 : Vehicle :=
  {| mesh := None;
     position := vec3 0 20 0;
     velocity := vec3 0 0 0;
     steerAngle := 0;
     mass := 1800;
     wheelBase := 2.7;
     maxSteer := PI / 6;
     dragCoef := 0.4257;
     rollingResistance := 12 |}.

Definition keys0 : Keys := mkKeys false false false false false.

Definition set_mesh (v : Vehicle) (m : option Mesh) : Vehicle :=
  {| mesh := m; position := position v; velocity := velocity v;
     steerAngle := steerAngle v; mass := mass v; wheelBase := wheelBase v;
     maxSteer := maxSteer v; dragCoef := dragCoef v;
     rollingResistance := rollingResistance v |}.

Definition set_velocity (v : Vehicle) (u : Vector3) : Vehicle :=
  {| mesh := mesh v; position := position v; velocity := u;
     steerAngle := steerAngle v; mass := mass v; wheelBase := wheelBase v;
     maxSteer := maxSteer v; dragCoef := dragCoef v;
     rollingResistance := rollingResistance v |}.

(** The loader callbacks (lines 124-125 and 140-141): the model becomes
    the mesh and its position is copied from [vehicle.position]; the
    model keeps the rotation [q] it came with. *)
Definition attachMesh (q : Quaternion) (v : Vehicle) : Vehicle :=
  set_mesh v (Some (mkMesh (position v) q)).

(** The module-level variables the functions below read and write. *)
Record World : Type := mkWorld {
  vehicle : Vehicle;
  keys : Keys;
  chaseCam : bool;
  camera : Camera;
  controls : Controls;
  last : R
}.

Definition set_vehicle (w : World) (v : Vehicle) : World :=
  {| vehicle := v; keys := keys w; chaseCam := chaseCam w;
     camera := camera w; controls := controls w; last := last w |}.

Definition set_chaseCam (w : World) (b : bool) : World :=
  {| vehicle := vehicle w; keys := keys w; chaseCam := b;
     camera := camera w; controls := controls w; last := last w |}.

Definition set_camera (w : World) (c : Camera) : World :=
  {| vehicle := vehicle w; keys := keys w; chaseCam := chaseCam w;
     camera := c; controls := controls w; last := last w |}.

Definition set_controls (w : World) (c : Controls) : World :=
  {| vehicle := vehicle w; keys := keys w; chaseCam := chaseCam w;
     camera := camera w; controls := c; last := last w |}.

Definition set_last (w : World) (t : R) : World :=
  {| vehicle := vehicle w; keys := keys w; chaseCam := chaseCam w;
     camera := camera w; controls := controls w; last := t |}.

(** How a handler ends: normally, or with the [TypeError] a property
    read on [null] raises.  Either way the value is the state the
    handler leaves behind. *)
Inductive Completion (A : Type) : Type :=
| Normal (a : A)
| Throws (a : A).

Arguments Normal {A} a.
Arguments Throws {A} a.

(** ** The program *)

Section Program.

Context {E : Engine}.

(** *** Ray ground check, lines 183-188 *)

Definition probe (x z : R) : Ray := ray (vec3 x 2000 z) (vec3 0 (-1) 0).

Definition getGroundHeightAt (x z : R) : R :=
  match intersectGround (probe x z) with
  | h :: _ => vy (point h)
  | [] => -1000
  end.

(** *** Physics step, lines 192-230 *)

(** Lines 194-195: elapsed seconds, capped at 0.05. *)
Definition stepDt (now last : R) : R :=
  let dt := (now - last) / 1000 in
  if Rlt_dec 0.05 dt then 0.05 else dt.

(** Line 200. *)
Definition throttle (k : Keys) : R :=
  if forward k then 1 else if back k then -0.6 else 0.

(** Line 201. *)
Definition steerInput (k : Keys) : R :=
  (if left k then 1 else 0) - (if right k then 1 else 0).

Definition maxEngine : R := 8000.

(** Line 203. *)
Definition targetSteer (k : Keys) (v : Vehicle) : R :=
  steerInput k * maxSteer v.

(** Line 204: the steering angle after the step. *)
Definition steerStep (k : Keys) (dt : R) (v : Vehicle) : R :=
  lerp (steerAngle v) (targetSteer k v) (5 * dt).

(** Lines 206-214: the velocity after the forces have been
    integrated; [q] is the rotation of the mesh. *)
Definition integrateVelocity (k : Keys) (dt : R) (v : Vehicle)
    (q : Quaternion) : Vector3 :=
  let forward := normalize (applyQuaternion (vec3 0 0 1) q) in
  let engineF := multiplyScalar forward (throttle k * maxEngine) in
  let speed := length (velocity v) in
  let drag := multiplyScalar (velocity v) (- dragCoef v * speed) in
  let rolling := multiplyScalar (velocity v) (- rollingResistance v) in
  let net := add (add (add zero engineF) drag) rolling in
  let accel := divideScalar net (mass v) in
  add (velocity v) (multiplyScalar accel dt).

(** Line 216, with the velocity and the steering angle already
    updated. *)
Definition angularVel (vel : Vector3) (wheelBase steer : R) : R :=
  if Req_dec_T (vz vel) 0 then 0
  else (length vel / wheelBase) * tan steer.

(** Lines 217-219: the rotation of the mesh after the yaw update.
    Evaluated exactly the yaw quaternion has norm 1; in binary64 its
    norm, and with it the norm of the rotation, moves a little with
    every turning frame, while the X and Z components of a rotation
    about the vertical axis stay 0. *)
Definition yawStep (q : Quaternion) (angularVel dt : R) : Quaternion :=
  let deltaYaw := angularVel * dt in
  let yawQuat := setFromAxisAngle (vec3 0 1 0) deltaYaw in
  multiplyQuaternions yawQuat q.

(** Lines 221-222: the mesh position moved along its heading. *)
Definition advance (p : Vector3) (q : Quaternion) (vel : Vector3)
    (dt : R) : Vector3 :=
  let localForward := applyQuaternion (vec3 0 0 1) q in
  addScaledVector p localForward
    (length vel * dt * sign (dot vel localForward)).

(** Lines 200-229, for a vehicle whose mesh is [m]. *)
Definition stepMesh (k : Keys) (dt : R) (v : Vehicle) (m : Mesh)
    : Vehicle :=
  let steer := steerStep k dt v in
  let vel := integrateVelocity k dt v (mesh_quaternion m) in
  let q := yawStep (mesh_quaternion m)
             (angularVel vel (wheelBase v) steer) dt in
  let p := advance (mesh_position m) q vel dt in
  let groundY := getGroundHeightAt (vx p) (vz p) in
  let desiredY := groundY + 0.8 in
  let diff := desiredY - vy p in
  let suspensionK := 80 in
  let vely := vy vel + (diff * suspensionK * dt - 9.81 * dt) in
  {| mesh := Some (mkMesh (vec3 (vx p) (vy p + vely * dt) (vz p)) q);
     position := position v;
     velocity := vec3 (vx vel) vely (vz vel);
     steerAngle := steer;
     mass := mass v; wheelBase := wheelBase v; maxSteer := maxSteer v;
     dragCoef := dragCoef v; rollingResistance := rollingResistance v |}.

(** Lines 198-229: what one step does to the vehicle. *)
Definition stepVehicle (k : Keys) (dt : R) (v : Vehicle) : Vehicle :=
  match mesh v with
  | None => v
  | Some m => stepMesh k dt v m
  end.

(** [physicsStep()], with the clock reading [now]. *)
Definition physicsStep (now : R) (w : World) : World :=
  let dt := stepDt now (last w) in
  let w := set_last w now in
  set_vehicle w (stepVehicle (keys w) dt (vehicle w)).

(** *** Reset, lines 232-237 *)

Definition resetVehicle (v : Vehicle) : Vehicle :=
  match mesh v with
  | None => v
  | Some _ =>
      set_velocity (set_mesh v (Some (mkMesh (vec3 0 20 0) (quat 0 0 0 1))))
                   (vec3 0 0 0)
  end.

(** *** Camera, lines 166-179 *)

Definition toggleCamera (w : World) : Completion World :=
  let w := set_chaseCam w (negb (chaseCam w)) in
  if negb (chaseCam w) then
    match mesh (vehicle w) with
    | None => Throws w
    | Some m =>
        Normal (set_controls w
                  (orbit (mesh_position m) (enabled (controls w))))
    end
  else Normal w.

(** The point the chase camera moves toward (lines 170-172). *)
Definition desiredCamera (m : Mesh) : Vector3 :=
  let offset := applyQuaternion (vec3 0 2.2 (-6)) (mesh_quaternion m) in
  add (mesh_position m) offset.

(** The interpolation factor of line 173, evaluated exactly.  In
    binary64 the factor is exactly 1 once [Math.pow(0.01, dt)] is at
    most 2^-54 (see [Binary64.chasePosition]). *)
Definition chaseAlpha (dt : R) : R := 1 - Rpower 0.01 dt.

(** The point the chase camera looks at (line 174). *)
Definition lookAtTarget (m : Mesh) : Vector3 :=
  add (mesh_position m) (vec3 0 1.2 0).

Definition updateCamera (dt : R) (w : World) : World :=
  match chaseCam w, mesh (vehicle w) with
  | true, Some m =>
      let p := lerpV (cam_position (camera w)) (desiredCamera m)
                     (chaseAlpha dt) in
      set_camera w (camera_at p (lookAtRotation p (lookAtTarget m)))
  | _, _ =>
      let (c, cam) := controlsUpdate (controls w) (camera w) in
      set_camera (set_controls w c) cam
  end.

(** *** Render loop, lines 240-248

    One frame; [now] is the clock reading of [animate], [now'] the
    one [physicsStep] takes. *)
Definition animate (now now' : R) (w : World) : World :=
  let dt := Rmin ((now - last w) / 1000) 0.05 in
  let w := physicsStep now' w in
  let w := set_controls w
             (orbit (target (controls w)) (negb (chaseCam w))) in
  updateCamera dt w.

(** *** Runs of the vehicle

    What can happen to the vehicle object: a frame with the keys held
    at that moment and its time step, a reset, the loader attaching a
    model. *)
Inductive Input : Type :=
| Frame (k : Keys) (dt : R)
| Reset
| Attach (q : Quaternion).

Definition apply (v : Vehicle) (i : Input) : Vehicle :=
  match i with
  | Frame k dt => stepVehicle k dt v
  | Reset => resetVehicle v
  | Attach q => attachMesh q v
  end.

Definition run (inputs : list Input) (v : Vehicle) : Vehicle :=
  fold_left apply inputs v.

(** The vehicle after each input of a run, in order. *)
Fixpoint trace (inputs : list Input) (v : Vehicle) : list Vehicle :=
  match inputs with
  | [] => []
  | i :: rest => apply v i :: trace rest (apply v i)
  end.

(** The time steps the render loop can hand to a frame. *)
Definition dtOk (i : Input) : Prop :=
  match i with
  | Frame _ dt => 0 < dt <= 0.05
  | _ => True
  end.

End Program.

(** ** Definitions the statements below use *)

(** The invariant of the steering angle. *)
Definition steerOk (v : Vehicle) : Prop :=
  Rabs (steerAngle v) <= maxSteer v.

(** The smoothing rule as the specification words it: the angle moves
    toward the target by the fraction [1 - exp(-5 dt)]. *)
Definition specSteerStep (k : Keys) (dt : R) (v : Vehicle) : R :=
  steerAngle v + (targetSteer k v - steerAngle v) * (1 - exp (- 5 * dt)).

(** The sideways part of a velocity for a body with rotation [q]: its
    component along the body's local X axis. *)
Definition lateralComponent (q : Quaternion) (vel : Vector3) : R :=
  dot vel (applyQuaternion (vec3 1 0 0) q).

(** The turn rate as the specification words it: gated on the lateral
    component of the velocity. *)
Definition specAngularVel (q : Quaternion) (vel : Vector3)
    (wheelBase steer : R) : R :=
  if Req_dec_T (lateralComponent q vel) 0 then 0
  else (length vel / wheelBase) * tan steer.

(** Rotation of a vector about the world vertical (Y) axis. *)
Definition rotateY (angle : R) (u : Vector3) : Vector3 :=
  vec3 (vx u * cos angle + vz u * sin angle)
       (vy u)
       (vz u * cos angle - vx u * sin angle).

(** The fraction of the velocity that survives one integration step
    when the engine is idle. *)
Definition dampFactor (dt : R) (v : Vehicle) : R :=
  1 - (dragCoef v * length (velocity v) + rollingResistance v) * dt / mass v.

(** What the specification says a reset establishes. *)
Definition resetPost (v : Vehicle) : Prop :=
  mesh v = Some (mkMesh (vec3 0 20 0) identity) /\ velocity v = zero.

(** A handler faults when it ends with the [TypeError]. *)
Definition faults {A : Type} (c : Completion A) : Prop :=
  match c with
  | Throws _ => True
  | Normal _ => False
  end.

Definition set_keys (w : World) (k : Keys) : World :=
  {| vehicle := vehicle w; keys := k; chaseCam := chaseCam w;
     camera := camera w; controls := controls w; last := last w |}.

(** An engine whose ground is the horizontal plane of height [h]: a
    vertical probe starting at or above the plane meets it once,
    straight below its origin.  Its camera services do nothing. *)
Definition flatGround (h : R) (r : Ray) : list Intersection :=
  let t := vy (origin r) - h in
  if Rle_dec 0 t then [hit t (vec3 (vx (origin r)) h (vz (origin r)))]
  else [].

Definition flatEngine (h : R) : Engine :=
  {| intersectGround := flatGround h;
     lookAtRotation := fun _ _ => identity;
     controlsUpdate := fun c cam => (c, cam) |}.

(** An engine with no ground at all. *)
Definition voidEngine : Engine :=
  {| intersectGround := fun _ => [];
     lookAtRotation := fun _ _ => identity;
     controlsUpdate := fun c cam => (c, cam) |}.

(** Concrete states used as instances. *)

(** The stock vehicle once the placeholder car is attached. *)
Definition parked : Vehicle := attachMesh identity vehicle0.

Definition leftKeys : Keys := mkKeys false false true false false.

(** The attached vehicle with a speed far beyond anything the engine
    can produce. *)
Definition hurtling : Vehicle := set_velocity parked (vec3 0 0 200000).

(** The attached vehicle rolling forward at 30 m/s. *)
Definition cruising : Vehicle := set_velocity parked (vec3 0 0 30).

(** A vehicle without a mesh that nevertheless moves. *)
Definition unloadedMoving : Vehicle := set_velocity vehicle0 (vec3 1 0 0).

Definition camera0 : Camera := camera_at (vec3 0 5 (-12)) identity.

Definition world0 : World :=
  {| vehicle := vehicle0; keys := keys0; chaseCam := true;
     camera := camera0; controls := orbit zero true; last := 0 |}.

Definition worldParked : World := set_vehicle world0 parked.

(** ** Terrain and keyboard *)

(** The height the ground loop gives the vertex at [(x, z)],
    line 68. *)
Definition terrainHeight (x z : R) : R :=
  (sin (x * 0.01) + cos (z * 0.007)) * 8.

(** What the handlers read of a keyboard event. *)
Record KeyEvent : Type := keyEvent { key : string; code : string }.

(** [toLowerCase] on the letters A-Z; every other character is kept.
    The handlers only compare the result with one of the letters
    w, s, a, d, c, r, and no character outside A-Z lower-cases to one
    of these. *)
Definition lowerChar (c : ascii) : ascii :=
  let n := nat_of_ascii c in
  if (65 <=? n)%nat && (n <=? 90)%nat then ascii_of_nat (n + 32) else c.

Fixpoint toLowerCase (s : string) : string :=
  match s with
  | EmptyString => EmptyString
  | String c rest => String (lowerChar c) (toLowerCase rest)
  end.

Definition set_forward (k : Keys) (b : bool) : Keys :=
  mkKeys b (back k) (left k) (right k) (handbrake k).

Definition set_back (k : Keys) (b : bool) : Keys :=
  mkKeys (forward k) b (left k) (right k) (handbrake k).

Definition set_left (k : Keys) (b : bool) : Keys :=
  mkKeys (forward k) (back k) b (right k) (handbrake k).

Definition set_right (k : Keys) (b : bool) : Keys :=
  mkKeys (forward k) (back k) (left k) b (handbrake k).

Definition set_handbrake (k : Keys) (b : bool) : Keys :=
  mkKeys (forward k) (back k) (left k) (right k) b.

(** The five flag assignments the two handlers share (lines 149-153
    with [b = true], lines 158-162 with [b = false]). *)
Definition latch (e : KeyEvent) (b : bool) (k : Keys) : Keys :=
  let k := if (toLowerCase (key e) =? "w")%string then set_forward k b else k in
  let k := if (toLowerCase (key e) =? "s")%string then set_back k b else k in
  let k := if (toLowerCase (key e) =? "a")%string then set_left k b else k in
  let k := if (toLowerCase (key e) =? "d")%string then set_right k b else k in
  if (code e =? "Space")%string then set_handbrake k b else k.

(** The [keydown] listener, lines 148-156.  A [TypeError] raised by
    [toggleCamera] ends the listener. *)
Definition keydown (e : KeyEvent) (w : World) : Completion World :=
  let w := set_keys w (latch e true (keys w)) in
  match (if (toLowerCase (key e) =? "c")%string
         then toggleCamera w else Normal w) with
  | Throws w => Throws w
  | Normal w =>
      Normal (if (toLowerCase (key e) =? "r")%string
              then set_vehicle w (resetVehicle (vehicle w)) else w)
  end.

(** The [keyup] listener, lines 157-163. *)
Definition keyup (e : KeyEvent) (w : World) : World :=
  set_keys w (latch e false (keys w)).

(** The state a listener leaves behind, however it ended. *)
Definition stateOf {A : Type} (c : Completion A) : A :=
  match c with
  | Normal a => a
  | Throws a => a
  end.

(** Keyboard events as the browser delivers them, one after another;
    a listener that faulted does not stop later events. *)
Inductive KeyboardEvent : Type :=
| KeyDown (e : KeyEvent)
| KeyUp (e : KeyEvent).

Definition dispatch (w : World) (ev : KeyboardEvent) : World :=
  match ev with
  | KeyDown e => stateOf (keydown e w)
  | KeyUp e => keyup e w
  end.

(** ** Further definitions for the properties of the dynamics *)

(** The squared norm of a quaternion. *)
Definition normSq (q : Quaternion) : R :=
  qx q * qx q + qy q * qy q + qz q * qz q + qw q * qw q.

(** A unit quaternion that turns about the vertical axis only. *)
Definition uprightQ (q : Quaternion) : Prop :=
  qx q = 0 /\ qz q = 0 /\ normSq q = 1.

Definition upright (v : Vehicle) : Prop :=
  match mesh v with
  | None => True
  | Some m => uprightQ (mesh_quaternion m)
  end.

(** The vector from [a] to [b]. *)
Definition displacement (a b : Vector3) : Vector3 :=
  vec3 (vx b - vx a) (vy b - vy a) (vz b - vz a).

(** The heading of a body with rotation [q]: its local +Z axis. *)
Definition heading (q : Quaternion) : Vector3 :=
  applyQuaternion (vec3 0 0 1) q.

Definition forwardKeys : Keys := mkKeys true false false false false.

(** ** The same lines in binary64 *)

Module Binary64.

Import PrimFloat.
Local Open Scope float_scope.
#[local] Set Warnings "-inexact-float".

(** [MathUtils.lerp(x, y, t)], each operation rounded. *)
Definition lerp (x y t : float) : float := (1 - t) * x + t * y.

(** [Math.PI] and [vehicle.maxSteer], line 95. *)
Definition PI : float := 0x1.921fb54442d18p+1.

Definition maxSteer : float := PI / 6.

(** Line 201. *)
Definition steerInput (k : Keys) : float :=
  (if left k then 1 else 0) - (if right k then 1 else 0).

(** Lines 203-204: the steering angle after a step. *)
Definition steerStep (k : Keys) (dt steerAngle : float) : float :=
  lerp steerAngle (steerInput k * maxSteer) (5 * dt).

Record Vector3 : Type := vec3 { vx : float; vy : float; vz : float }.

Record Quaternion : Type :=
  quat { qx : float; qy : float; qz : float; qw : float }.

Definition add (a b : Vector3) : Vector3 :=
  vec3 (vx a + vx b) (vy a + vy b) (vz a + vz b).

Definition multiplyScalar (a : Vector3) (s : float) : Vector3 :=
  vec3 (vx a * s) (vy a * s) (vz a * s).

Definition divideScalar (a : Vector3) (s : float) : Vector3 :=
  multiplyScalar a (1 / s).

Definition length (a : Vector3) : float :=
  PrimFloat.sqrt (vx a * vx a + vy a * vy a + vz a * vz a).

(** [a.length() || 1]: zero is falsy. *)
Definition normalize (a : Vector3) : Vector3 :=
  divideScalar a (if length a =? 0 then 1 else length a).

Definition lerpV (a b : Vector3) (alpha : float) : Vector3 :=
  vec3 (vx a + (vx b - vx a) * alpha)
       (vy a + (vy b - vy a) * alpha)
       (vz a + (vz b - vz a) * alpha).

Definition applyQuaternion (v : Vector3) (q : Quaternion) : Vector3 :=
  let x := vx v in let y := vy v in let z := vz v in
  let ix := qw q * x + qy q * z - qz q * y in
  let iy := qw q * y + qz q * x - qx q * z in
  let iz := qw q * z + qx q * y - qy q * x in
  let iw := - qx q * x - qy q * y - qz q * z in
  vec3 (ix * qw q + iw * - qx q + iy * - qz q - iz * - qy q)
       (iy * qw q + iw * - qy q + iz * - qx q - ix * - qz q)
       (iz * qw q + iw * - qz q + ix * - qy q - iy * - qx q).

Definition identity : Quaternion := quat 0 0 0 1.

(** Line 200. *)
Definition throttle (k : Keys) : float :=
  if forward k then 1 else if back k then -0.6 else 0.

(** Lines 206-214 with the stock [mass], [dragCoef] and
    [rollingResistance]. *)
Definition integrateVelocity (k : Keys) (dt : float) (velocity : Vector3)
    (q : Quaternion) : Vector3 :=
  let forward := normalize (applyQuaternion (vec3 0 0 1) q) in
  let engineF := multiplyScalar forward (throttle k * 8000) in
  let speed := length velocity in
  let drag := multiplyScalar velocity (- 0.4257 * speed) in
  let rolling := multiplyScalar velocity (- 12) in
  let net := add (add (add (vec3 0 0 0) engineF) drag) rolling in
  let accel := divideScalar net 1800 in
  add velocity (multiplyScalar accel dt).

(** Lines 170-172: the point the chase camera moves toward, for a
    mesh at [pos] with rotation [q]. *)
Definition desiredCamera (pos : Vector3) (q : Quaternion) : Vector3 :=
  let offset := applyQuaternion (vec3 0 2.2 (-6)) q in
  add pos offset.


(** Whether an angle is within [maxSteer] in magnitude. *)
Definition steerOk (a : float) : bool := abs a <=? maxSteer.

(** The steering angle after [n] frames of [dt] each with the keys
    [k] held. *)
Definition steerRun (k : Keys) (dt : float) (n : nat) (a : float) : float :=
  Nat.iter n (steerStep k dt) a.

(** Concrete inputs: time steps of 4.5 ms, 6.5 ms and 50 ms, the
    steering angle 0, the camera and the mesh position the program
    starts with, the smallest positive velocity along Z, and the
    numbers [Math.pow(0.01, 9)] is near: 1e-18, its upper neighbour,
    and, far above both, 2^-54. *)
Definition dt4500us : float := 0.0045.

Definition dt6500us : float := 0.0065.

Definition dt50ms : float := 0.05.

Definition straight : float := 0.

Definition camera0 : Vector3 := vec3 0 5 (-12).


Definition tinyVelocity : Vector3 := vec3 0 0 0x1p-1074.




End Binary64.

(** ** Rounded arithmetic over the reals *)

(** What the bounds below use of binary64 rounding to nearest, for a
    function [rnd] from the reals to the representable numbers: it is
    monotone, keeps 0 and 1, and on arguments of magnitude at most 4
    its error is at most the relative [u] plus the absolute [eta]
    (for binary64, [u] is 2^-53 and [eta] is 2^-1075). *)
Record Rounding (rnd : R -> R) (u eta : R) : Prop := {
  u_range : 0 <= u <= 1 / 8;
  eta_range : 0 <= eta <= 1 / 8;
  rnd_monotone : forall x y, x <= y -> rnd x <= rnd y;
  rnd_0 : rnd 0 = 0;
  rnd_1 : rnd 1 = 1;
  rnd_error : forall z, Rabs z <= 4 -> Rabs (rnd z - z) <= u * Rabs z + eta
}.

(** [MathUtils.lerp(x, y, t)] with every operation rounded, in the
    order the expression [(1 - t) * x + t * y] is evaluated. *)
Definition lerpRounded (rnd : R -> R) (x y t : R) : R :=
  rnd (rnd (rnd (1 - t) * x) + rnd (t * y)).

(** Lines 203-204 with every operation rounded: the steering angle
    after a step, for the angle [x] and [maxSteer = m]. *)
Definition steerStepRounded (rnd : R -> R) (m : R) (k : Keys) (dt x : R) : R :=
  lerpRounded rnd x (rnd (steerInput k * m)) (rnd (5 * dt)).

(** The steering angle after a run of frames, each with its keys and
    its time step. *)
Definition steerRunRounded (rnd : R -> R) (m : R)
    (frames : list (Keys * R)) (x : R) : R :=
  fold_left (fun x f => steerStepRounded rnd m (fst f) (snd f) x) frames x.

(** The bound on the steering angle after [n] rounded steps. *)
Fixpoint steerSlack (u eta m : R) (n : nat) : R :=
  match n with
  | O => m
  | S n => steerSlack u eta m n * (1 + 4 * u) + 5 * eta
  end.

Definition frameOk (f : Keys * R) : Prop := 0 < snd f <= 0.05.

(** The unit roundoff of binary64 and half its smallest positive
    number. *)
Definition binary64_u : R := / 2 ^ 53.

Definition binary64_eta : R := / 2 ^ 1075.

(** A coarse rounding to try the conditions on: down to the next
    multiple of 1/1024. *)
Definition roundToGrid (z : R) : R := IZR (Zfloor (z * 1024)) / 1024.

(** ** Further states, engines and predicates *)

Definition forwardLeftKeys : Keys := mkKeys true false true false false.

(** The stock vehicle one 50 ms frame after the placeholder was
    attached over flat ground of height 0, no key held. *)
Definition dropped : Vehicle :=
  {| mesh := Some (mkMesh (vec3 0 16.135475 0) identity);
     position := vec3 0 20 0;
     velocity := vec3 0 (-77.2905) 0;
     steerAngle := 0;
     mass := 1800;
     wheelBase := 2.7;
     maxSteer := PI / 6;
     dragCoef := 0.4257;
     rollingResistance := 12 |}.


(** A rotation about the vertical axis, of any norm. *)
Definition yawOnly (q : Quaternion) : Prop := qx q = 0 /\ qz q = 0.

Definition level (v : Vehicle) : Prop :=
  match mesh v with
  | None => True
  | Some m => yawOnly (mesh_quaternion m)
  end.

Definition attachLevel (i : Input) : Prop :=
  match i with
  | Attach q => yawOnly q
  | _ => True
  end.

(** An engine whose ground is a flat square of height [h] reaching
    1024 from the origin along X and Z, as the program's 2048 by 2048
    ground does; outside it a probe meets nothing. *)
Definition patchGround (h : R) (r : Ray) : list Intersection :=
  if Rle_dec (Rabs (vx (origin r))) 1024 then
    if Rle_dec (Rabs (vz (origin r))) 1024 then flatGround h r else []
  else [].

Definition patchEngine (h : R) : Engine :=
  {| intersectGround := patchGround h;
     lookAtRotation := fun _ _ => identity;
     controlsUpdate := fun c cam => (c, cam) |}.

(** The stock vehicle attached and moved beyond the edge of the
    ground. *)
Definition offGround : Vehicle :=
  set_mesh vehicle0 (Some (mkMesh (vec3 5000 20 0) identity)).

(** ** Steering *)

Section Steering.

Context {E : Engine}.

Lemma Rabs_le_between (x m : R) : Rabs x <= m -> - m <= x <= m.
Proof.
  unfold Rabs. destruct (Rcase_abs x); intros H; lra.
Qed.

Lemma lerp_bounded (x y t m : R) :
  Rabs x <= m -> Rabs y <= m -> 0 <= t <= 1 -> Rabs (lerp x y t) <= m.
Proof.
  intros Hx Hy [Ht0 Ht1].
  apply Rabs_le_between in Hx. apply Rabs_le_between in Hy.
  destruct Hx as [Hx1 Hx2], Hy as [Hy1 Hy2].
  apply Rabs_le. unfold lerp. split; nra.
Qed.

Lemma steerInput_cases (k : Keys) :
  steerInput k = -1 \/ steerInput k = 0 \/ steerInput k = 1.
Proof.
  unfold steerInput. destruct (left k), (right k).
  - right; left; lra.
  - right; right; lra.
  - left; lra.
  - right; left; lra.
Qed.

Lemma targetSteer_bounded (k : Keys) (v : Vehicle) :
  0 <= maxSteer v -> Rabs (targetSteer k v) <= maxSteer v.
Proof.
  intros Hm. unfold targetSteer. apply Rabs_le.
  destruct (steerInput_cases k) as [H | [H | H]]; rewrite H; lra.
Qed.

Lemma steerOk_maxSteer_nonneg (v : Vehicle) : steerOk v -> 0 <= maxSteer v.
Proof.
  unfold steerOk. intros H. pose proof (Rabs_pos (steerAngle v)). lra.
Qed.

Lemma steerStep_bounded (k : Keys) (dt : R) (v : Vehicle) :
  0 <= 5 * dt <= 1 -> steerOk v -> Rabs (steerStep k dt v) <= maxSteer v.
Proof.
  intros Hdt Hv. unfold steerStep.
  apply lerp_bounded; auto.
  apply targetSteer_bounded, steerOk_maxSteer_nonneg, Hv.
Qed.

Lemma stepVehicle_steerAngle (k : Keys) (dt : R) (v : Vehicle) (m : Mesh) :
  mesh v = Some m -> steerAngle (stepVehicle k dt v) = steerStep k dt v.
Proof. intros Hm. unfold stepVehicle. rewrite Hm. reflexivity. Qed.

Lemma stepVehicle_maxSteer (k : Keys) (dt : R) (v : Vehicle) :
  maxSteer (stepVehicle k dt v) = maxSteer v.
Proof. unfold stepVehicle. destruct (mesh v); reflexivity. Qed.

Lemma stepVehicle_unloaded (k : Keys) (dt : R) (v : Vehicle) :
  mesh v = None -> stepVehicle k dt v = v.
Proof. intros Hm. unfold stepVehicle. rewrite Hm. reflexivity. Qed.

Lemma stepVehicle_steerOk (k : Keys) (dt : R) (v : Vehicle) :
  0 < dt <= 0.05 -> steerOk v -> steerOk (stepVehicle k dt v).
Proof.
  intros Hdt Hv. unfold steerOk. rewrite stepVehicle_maxSteer.
  destruct (mesh v) as [m |] eqn:Hm.
  - rewrite (stepVehicle_steerAngle k dt v m Hm).
    apply steerStep_bounded; [lra | exact Hv].
  - rewrite stepVehicle_unloaded by exact Hm. exact Hv.
Qed.

Lemma resetVehicle_steerOk (v : Vehicle) :
  steerOk v -> steerOk (resetVehicle v).
Proof. unfold steerOk, resetVehicle. destruct (mesh v); auto. Qed.

Lemma apply_steerOk (i : Input) (v : Vehicle) :
  dtOk i -> steerOk v -> steerOk (apply v i).
Proof.
  destruct i as [k dt | | q]; simpl; intros Hi Hv.
  - apply stepVehicle_steerOk; assumption.
  - apply resetVehicle_steerOk; assumption.
  - exact Hv.
Qed.

Lemma vehicle0_steerOk : steerOk vehicle0.
Proof.
  unfold steerOk; simpl. rewrite Rabs_R0.
  pose proof PI_RGT_0. lra.
Qed.

(** In exact arithmetic a physics step with a time step in (0, 0.05]
    keeps the steering angle within [-maxSteer, maxSteer]; therefore,
    along any sequence of frames (whatever keys are held), resets and
    mesh attachments that starts in a state within the bound, the
    state after every input is within the bound. *)
Theorem steer_invariant (inputs : list Input) (v : Vehicle) :
  steerOk v -> Forall dtOk inputs -> Forall steerOk (trace inputs v).
Proof.
  intros Hv Hin. revert v Hv.
  induction Hin as [| i rest Hi _ IH]; intros v Hv; simpl.
  - constructor.
  - pose proof (apply_steerOk i v Hi Hv) as Hv'.
    constructor; [exact Hv' | apply IH, Hv'].
Qed.

(** The bound holds in every state the program reaches from its
    initial vehicle. *)
Lemma reachable_steerOk (inputs : list Input) :
  Forall dtOk inputs -> steerOk (run inputs vehicle0).
Proof.
  intros Hin. unfold run.
  revert Hin. generalize vehicle0_steerOk. generalize vehicle0.
  induction inputs as [| i rest IH]; intros v Hv Hin; simpl.
  - exact Hv.
  - inversion Hin; subst. apply IH; [apply apply_steerOk |]; assumption.
Qed.

(** C2, as the code has it.  When the mesh is attached, the step moves
    the steering angle toward [steerInput * maxSteer] by the fraction
    [5 * dt] of the remaining difference (the linear interpolation
    [(1 - 5 dt) * steerAngle + 5 dt * target]); without a mesh the
    angle is left as it is. *)
Theorem steer_smoothing_linear (k : Keys) (dt : R) (v : Vehicle) :
  (forall m, mesh v = Some m ->
     steerAngle (stepVehicle k dt v)
     = steerAngle v + (steerInput k * maxSteer v - steerAngle v) * (5 * dt)
     /\ steerAngle (stepVehicle k dt v)
        = (1 - 5 * dt) * steerAngle v + 5 * dt * (steerInput k * maxSteer v))
  /\ (mesh v = None -> steerAngle (stepVehicle k dt v) = steerAngle v).
Proof.
  split.
  - intros m Hm. rewrite (stepVehicle_steerAngle k dt v m Hm).
    unfold steerStep, targetSteer, lerp. split; ring.
  - intros Hm. rewrite stepVehicle_unloaded by exact Hm. reflexivity.
Qed.

End Steering.

(** The exact bound at an instance: the attached stock vehicle,
    steering left for a 50 ms frame, then reset. *)
Lemma steer_invariant_witness :
  Forall steerOk
    (@trace (flatEngine 0) [Frame leftKeys 0.05; Reset; Frame keys0 0.016] parked).
Proof.
  apply (@steer_invariant (flatEngine 0)).
  - exact vehicle0_steerOk.
  - repeat constructor; simpl; lra.
Defined.

(** C2 at an instance. *)
Lemma steer_smoothing_linear_witness :
  steerAngle (@stepVehicle (flatEngine 0) leftKeys 0.05 parked)
  = steerAngle parked + (steerInput leftKeys * maxSteer parked - steerAngle parked) * (5 * 0.05).
Proof.
  apply (proj1 (@steer_smoothing_linear (flatEngine 0) leftKeys 0.05 parked)
           (mkMesh (vec3 0 20 0) identity)).
  reflexivity.
Defined.

(** C2 as worded fails: from rest, steering left for one 50 ms frame,
    the code reaches a quarter of [maxSteer], which is not the fraction
    [1 - exp(-1/4)] the exponential rule gives. *)
Lemma steer_smoothing_exp_counterexample :
  steerAngle (@stepVehicle (flatEngine 0) leftKeys 0.05 parked)
  <> specSteerStep leftKeys 0.05 parked.
Proof.
  unfold specSteerStep, targetSteer, steerInput. simpl.
  unfold steerStep, targetSteer, steerInput, lerp. simpl.
  intros H.
  assert (Hexp : 1 + (- 5 * 0.05) < exp (- 5 * 0.05))
    by (apply exp_ineq1; lra).
  pose proof PI_RGT_0 as Hpi.
  nra.
Qed.

(** ** Velocity integration and yaw *)

Section Dynamics.

Context {E : Engine}.

Lemma length_nonneg (a : Vector3) : 0 <= length a.
Proof. apply sqrt_pos. Qed.

Lemma sumsq_nonneg (a : Vector3) :
  0 <= vx a * vx a + vy a * vy a + vz a * vz a.
Proof. nra. Qed.

Lemma length_multiplyScalar (a : Vector3) (s : R) :
  length (multiplyScalar a s) = Rabs s * length a.
Proof.
  unfold length, multiplyScalar; simpl.
  replace (vx a * s * (vx a * s) + vy a * s * (vy a * s) + vz a * s * (vz a * s))
    with (Rsqr s * (vx a * vx a + vy a * vy a + vz a * vz a))
    by (unfold Rsqr; ring).
  rewrite sqrt_mult; [| apply Rle_0_sqr | apply sumsq_nonneg].
  rewrite sqrt_Rsqr_abs. reflexivity.
Qed.

Lemma length_pos (a : Vector3) : a <> zero -> 0 < length a.
Proof.
  intros Ha. unfold length. apply sqrt_lt_R0.
  destruct a as [x y z]; simpl.
  destruct (Req_dec_T x 0) as [Hx | Hx]; [| nra].
  destruct (Req_dec_T y 0) as [Hy | Hy]; [| nra].
  destruct (Req_dec_T z 0) as [Hz | Hz]; [| nra].
  exfalso. apply Ha. subst. reflexivity.
Qed.

(** With the engine idle the integration scales the velocity. *)
Lemma integrateVelocity_coast (k : Keys) (dt : R) (v : Vehicle)
    (q : Quaternion) :
  forward k = false -> back k = false ->
  integrateVelocity k dt v q = multiplyScalar (velocity v) (dampFactor dt v).
Proof.
  intros Hf Hb.
  unfold integrateVelocity, throttle, dampFactor. rewrite Hf, Hb.
  unfold add, divideScalar, multiplyScalar, zero; simpl.
  f_equal; unfold Rdiv; ring.
Qed.

Lemma coast_damps (k : Keys) (dt : R) (v : Vehicle) (q : Quaternion) :
  forward k = false -> back k = false ->
  velocity v <> zero ->
  0 < dampFactor dt v < 1 ->
  0 < length (integrateVelocity k dt v q) < length (velocity v).
Proof.
  intros Hf Hb Hv [Hk0 Hk1].
  rewrite integrateVelocity_coast by assumption.
  rewrite length_multiplyScalar, Rabs_pos_eq by lra.
  pose proof (length_pos _ Hv). split; nra.
Qed.

Lemma dampFactor_range (dt : R) (v : Vehicle) :
  0 < dt -> 0 <= dragCoef v -> 0 < rollingResistance v ->
  (dragCoef v * length (velocity v) + rollingResistance v) * dt < mass v ->
  0 < dampFactor dt v < 1.
Proof.
  intros Hdt Hc Hr Hlt. unfold dampFactor.
  pose proof (length_nonneg (velocity v)) as Hl.
  assert (Hcl : 0 <= dragCoef v * length (velocity v))
    by (apply Rmult_le_pos; assumption).
  set (r := dragCoef v * length (velocity v) + rollingResistance v) in *.
  assert (Hr0 : 0 < r * dt)
    by (apply Rmult_lt_0_compat; [unfold r; lra | exact Hdt]).
  assert (Hm : 0 < mass v) by lra.
  assert (H1 : 0 < r * dt / mass v) by (apply Rdiv_lt_0_compat; assumption).
  assert (H2 : r * dt / mass v < 1).
  { apply Rmult_lt_reg_r with (mass v); [exact Hm |].
    unfold Rdiv. rewrite Rmult_assoc, Rinv_l by lra. lra. }
  lra.
Qed.

(** C4, as the code has it.  With no throttle key held, a nonzero
    velocity, a positive time step, non-negative drag, positive
    rolling resistance, and the step small enough that
    [(dragCoef * speed + rollingResistance) * dt < mass], the
    velocity integration of lines 208-214 multiplies the velocity by
    the factor [1 - (dragCoef * speed + rollingResistance) * dt / mass],
    which lies strictly between 0 and 1 and is at most
    [1 - rollingResistance * dt / mass]; evaluated exactly, the speed
    after the integration is the old speed times that factor, so it is
    strictly smaller and still positive, and the direction is kept. *)
Theorem coasting_slows_down (k : Keys) (dt : R) (v : Vehicle)
    (q : Quaternion) :
  forward k = false -> back k = false ->
  velocity v <> zero ->
  0 < dt ->
  0 <= dragCoef v -> 0 < rollingResistance v ->
  (dragCoef v * length (velocity v) + rollingResistance v) * dt < mass v ->
  let vel := integrateVelocity k dt v q in
  let f := 1 - (dragCoef v * length (velocity v) + rollingResistance v)
               * dt / mass v in
  vel = multiplyScalar (velocity v) f
  /\ 0 < f < 1
  /\ f <= 1 - rollingResistance v * dt / mass v
  /\ length vel = f * length (velocity v)
  /\ 0 < length vel < length (velocity v)
  /\ 0 < dot vel (velocity v).
Proof.
  intros Hf Hb Hv Hdt Hc Hr Hlt vel f.
  pose proof (dampFactor_range dt v Hdt Hc Hr Hlt) as Hk.
  pose proof (coast_damps k dt v q Hf Hb Hv Hk) as Hlen.
  change (0 < f < 1) in Hk. fold vel in Hlen.
  assert (Hvel : vel = multiplyScalar (velocity v) f)
    by (apply integrateVelocity_coast; assumption).
  split; [exact Hvel |]. split; [exact Hk |].
  split; [| split; [| split; [exact Hlen |]]].
  - unfold f.
    assert (Hm : 0 < mass v).
    { pose proof (length_nonneg (velocity v)).
      assert (0 <= dragCoef v * length (velocity v))
        by (apply Rmult_le_pos; assumption).
      assert (0 < (dragCoef v * length (velocity v) + rollingResistance v) * dt)
        by (apply Rmult_lt_0_compat; lra).
      lra. }
    assert (Hle : rollingResistance v * dt / mass v
                  <= (dragCoef v * length (velocity v) + rollingResistance v)
                     * dt / mass v).
    { unfold Rdiv. apply Rmult_le_compat_r;
        [left; apply Rinv_0_lt_compat; exact Hm |].
      apply Rmult_le_compat_r; [lra |].
      pose proof (length_nonneg (velocity v)).
      assert (0 <= dragCoef v * length (velocity v))
        by (apply Rmult_le_pos; assumption).
      lra. }
    lra.
  - rewrite Hvel, length_multiplyScalar, Rabs_pos_eq by lra. reflexivity.
  - rewrite Hvel. unfold dot, multiplyScalar; simpl.
    pose proof (length_pos _ Hv) as Hl. unfold length in Hl.
    assert (Hs : 0 < vx (velocity v) * vx (velocity v)
                     + vy (velocity v) * vy (velocity v)
                     + vz (velocity v) * vz (velocity v)).
    { destruct (Rle_lt_or_eq_dec _ _ (sumsq_nonneg (velocity v))) as [H | H];
        [exact H |]. rewrite <- H, sqrt_0 in Hl. lra. }
    nra.
Qed.

(** For the stock parameters and a frame of at most 50 ms the
    condition holds at every speed up to 84 000 m/s. *)
Lemma stock_speed_condition (dt : R) (v : Vehicle) :
  dragCoef v = 0.4257 -> rollingResistance v = 12 -> mass v = 1800 ->
  0 < dt <= 0.05 -> length (velocity v) <= 84000 ->
  (dragCoef v * length (velocity v) + rollingResistance v) * dt < mass v.
Proof.
  intros -> -> -> Hdt Hs.
  pose proof (length_nonneg (velocity v)). nra.
Qed.

Lemma length_axis_x (x : R) : length (vec3 x 0 0) = Rabs x.
Proof.
  unfold length; simpl.
  replace (x * x + 0 * 0 + 0 * 0) with (Rsqr x) by (unfold Rsqr; ring).
  apply sqrt_Rsqr_abs.
Qed.

Lemma length_axis_z (z : R) : length (vec3 0 0 z) = Rabs z.
Proof.
  unfold length; simpl.
  replace (0 * 0 + 0 * 0 + z * z) with (Rsqr z) by (unfold Rsqr; ring).
  apply sqrt_Rsqr_abs.
Qed.

(** Rotating by a product of quaternions is rotating by the right
    factor first and by the left factor after. *)
Lemma applyQuaternion_multiply (u : Vector3) (a b : Quaternion) :
  applyQuaternion u (multiplyQuaternions a b)
  = applyQuaternion (applyQuaternion u b) a.
Proof.
  destruct u as [x y z], a as [ax ay az aw], b as [bx by' bz bw].
  unfold applyQuaternion, multiplyQuaternions; simpl.
  f_equal; ring.
Qed.

(** The quaternion built from the Y axis and an angle turns vectors
    about the world vertical axis by that angle. *)
Lemma applyQuaternion_yaw (u : Vector3) (angle : R) :
  applyQuaternion u (setFromAxisAngle (vec3 0 1 0) angle) = rotateY angle u.
Proof.
  destruct u as [x y z].
  unfold applyQuaternion, setFromAxisAngle, rotateY; simpl.
  assert (Hs : sin angle = 2 * sin (angle / 2) * cos (angle / 2))
    by (rewrite <- sin_2a; f_equal; field).
  assert (Hc : cos angle
               = cos (angle / 2) * cos (angle / 2)
                 - sin (angle / 2) * sin (angle / 2))
    by (rewrite <- cos_2a; f_equal; field).
  rewrite Hs, Hc. clear Hs Hc.
  pose proof (sin2_cos2 (angle / 2)) as Hsc. unfold Rsqr in Hsc.
  set (s := sin (angle / 2)) in *. set (c := cos (angle / 2)) in *.
  f_equal; try ring.
  transitivity (y * (s * s + c * c)); [ring | rewrite Hsc; ring].
Qed.

Lemma stepVehicle_quaternion (k : Keys) (dt : R) (v : Vehicle) (m : Mesh) :
  mesh v = Some m ->
  option_map mesh_quaternion (mesh (stepVehicle k dt v))
  = Some (yawStep (mesh_quaternion m)
            (angularVel (integrateVelocity k dt v (mesh_quaternion m))
                        (wheelBase v) (steerStep k dt v)) dt).
Proof. intros Hm. unfold stepVehicle. rewrite Hm. reflexivity. Qed.

(** C3, as the code has it.  When the mesh is attached, the turn rate
    of the step is [(|velocity| / wheelBase) * tan(steerAngle)], with
    the velocity and the steering angle this step has just computed,
    whenever the world-space Z component of that velocity is nonzero,
    and 0 otherwise; the new rotation is the quaternion of the angle
    [rate * dt] about the Y axis multiplied from the left onto the
    old rotation, so every body vector is turned by that angle about
    the world vertical axis. *)
Theorem yaw_update (k : Keys) (dt : R) (v : Vehicle) (m : Mesh) :
  mesh v = Some m ->
  let steer := steerStep k dt v in
  let vel := integrateVelocity k dt v (mesh_quaternion m) in
  let rate := angularVel vel (wheelBase v) steer in
  (vz vel <> 0 -> rate = (length vel / wheelBase v) * tan steer)
  /\ (vz vel = 0 -> rate = 0)
  /\ exists m',
       mesh (stepVehicle k dt v) = Some m'
       /\ mesh_quaternion m'
          = multiplyQuaternions (setFromAxisAngle (vec3 0 1 0) (rate * dt))
                                (mesh_quaternion m)
       /\ forall u, applyQuaternion u (mesh_quaternion m')
                    = rotateY (rate * dt) (applyQuaternion u (mesh_quaternion m)).
Proof.
  intros Hm steer vel rate. split; [| split].
  - intros Hz. unfold rate, angularVel.
    destruct (Req_dec_T (vz vel) 0); [contradiction | reflexivity].
  - intros Hz. unfold rate, angularVel.
    destruct (Req_dec_T (vz vel) 0); [reflexivity | contradiction].
  - pose proof (stepVehicle_quaternion k dt v m Hm) as Hq.
    destruct (mesh (stepVehicle k dt v)) as [m' |]; [| discriminate].
    simpl in Hq. injection Hq as Hq.
    exists m'. split; [reflexivity |].
    fold vel steer rate in Hq. unfold yawStep in Hq.
    split; [exact Hq |].
    intros u. rewrite Hq, applyQuaternion_multiply, applyQuaternion_yaw.
    reflexivity.
Qed.

End Dynamics.

Lemma cruising_speed : length (velocity cruising) = 30.
Proof. simpl velocity. rewrite length_axis_z. apply Rabs_pos_eq. lra. Qed.

(** C4 at an instance: the stock vehicle rolling at 30 m/s, no key
    held, one 50 ms frame. *)
Lemma coasting_slows_down_witness :
  0 < length (integrateVelocity keys0 0.05 cruising identity)
    < length (velocity cruising).
Proof.
  refine (proj1 (proj2 (proj2 (proj2 (proj2
            (coasting_slows_down keys0 0.05 cruising identity
               eq_refl eq_refl _ _ _ _ _)))))).
  - intros H. apply (f_equal vz) in H. simpl in H. lra.
  - lra.
  - simpl. lra.
  - simpl. lra.
  - rewrite cruising_speed. simpl. lra.
Defined.

Lemma hurtling_dampFactor : dampFactor 0.05 hurtling < -1.
Proof.
  unfold dampFactor. simpl velocity. rewrite length_axis_z.
  rewrite Rabs_pos_eq by lra. simpl. lra.
Qed.

(** Beyond the step condition the integration overshoots: at
    200 000 m/s, with no key held, one 50 ms integration step multiplies
    the velocity by a factor below -1, so the speed grows and the
    direction reverses. *)
Lemma hurtling_overshoots :
  forward keys0 = false /\ back keys0 = false
  /\ velocity hurtling <> zero
  /\ length (velocity hurtling)
     < length (integrateVelocity keys0 0.05 hurtling identity)
  /\ dot (integrateVelocity keys0 0.05 hurtling identity) (velocity hurtling) < 0.
Proof.
  pose proof hurtling_dampFactor as Hk.
  split; [reflexivity |]. split; [reflexivity |].
  split.
  { intros H. apply (f_equal vz) in H. simpl in H. lra. }
  rewrite (integrateVelocity_coast keys0 0.05 hurtling identity eq_refl eq_refl).
  split.
  - rewrite length_multiplyScalar. simpl velocity. rewrite length_axis_z.
    rewrite (Rabs_pos_eq 200000) by lra.
    rewrite Rabs_left by lra. nra.
  - unfold dot, multiplyScalar. simpl. nra.
Qed.

(** ** Reset *)

(** C5, as the code has it.  When the mesh is attached, a reset puts
    the mesh at (0, 20, 0) with the identity rotation and sets the
    velocity to zero, whatever the state was; when no mesh is
    attached, a reset changes nothing. *)
Theorem reset_restores_start (v : Vehicle) :
  (forall m, mesh v = Some m -> resetPost (resetVehicle v))
  /\ (mesh v = None -> resetVehicle v = v).
Proof.
  unfold resetPost, resetVehicle. split.
  - intros m Hm. rewrite Hm. simpl. split; reflexivity.
  - intros Hm. rewrite Hm. reflexivity.
Qed.

(** C9.  A reset leaves the steering angle as it was; the same holds
    for [vehicle.position] and the static parameters. *)
Theorem reset_keeps_steerAngle (v : Vehicle) :
  steerAngle (resetVehicle v) = steerAngle v
  /\ position (resetVehicle v) = position v
  /\ mass (resetVehicle v) = mass v
  /\ wheelBase (resetVehicle v) = wheelBase v
  /\ maxSteer (resetVehicle v) = maxSteer v
  /\ dragCoef (resetVehicle v) = dragCoef v
  /\ rollingResistance (resetVehicle v) = rollingResistance v.
Proof.
  unfold resetVehicle. destruct (mesh v); simpl; repeat split; reflexivity.
Qed.

(** C5 at an instance: the vehicle hurtling along, then reset. *)
Lemma reset_restores_start_witness : resetPost (resetVehicle hurtling).
Proof.
  apply (proj1 (reset_restores_start hurtling) (mkMesh (vec3 0 20 0) identity)).
  reflexivity.
Defined.

(** C5 as worded fails before the model is attached: a reset of the
    initial vehicle leaves it without a mesh, hence without a rotation
    that could be the identity, and a reset of a mesh-less vehicle that
    moves leaves its velocity as it is. *)
Lemma reset_unloaded_counterexample :
  ~ resetPost (resetVehicle vehicle0)
  /\ mesh (resetVehicle vehicle0) = None
  /\ velocity (resetVehicle unloadedMoving) <> zero.
Proof.
  split; [| split].
  - unfold resetPost. simpl. intros [H _]. discriminate H.
  - reflexivity.
  - simpl. intros H. apply (f_equal vx) in H. simpl in H. lra.
Qed.

(** ** Handbrake *)

(** C8.  The step does not read the handbrake flag: two key states that
    agree on the four other flags give the same vehicle, for
    [stepVehicle] and for [physicsStep] on any world. *)
Theorem handbrake_ignored (E : Engine) (f b l r h1 h2 : bool) (dt now : R)
    (v : Vehicle) (w : World) :
  stepVehicle (mkKeys f b l r h1) dt v = stepVehicle (mkKeys f b l r h2) dt v
  /\ vehicle (physicsStep now (set_keys w (mkKeys f b l r h1)))
     = vehicle (physicsStep now (set_keys w (mkKeys f b l r h2))).
Proof.
  split.
  - unfold stepVehicle. destruct (mesh v); reflexivity.
  - unfold physicsStep, stepVehicle; simpl.
    destruct (mesh (vehicle w)); reflexivity.
Qed.

(** ** Ground height *)

Lemma flatGround_probe (h x z : R) :
  h <= 2000 ->
  flatGround h (probe x z) = [hit (2000 - h) (vec3 x h z)].
Proof.
  intros Hh. unfold flatGround, probe; simpl.
  destruct (Rle_dec 0 (2000 - h)) as [_ | Hn]; [reflexivity | lra].
Qed.

(** C6.  The probe starts at altitude 2000 above [(x, z)] and points
    straight down.  If the engine reports at least one hit, the result
    is the height of the first one; if it reports none, the result is
    -1000.  So over a flat ground of height [h] (below the probe's
    origin) the result is [h] at every [(x, z)], and with no ground the
    result is -1000. *)
Theorem ground_height (E : Engine) (x z : R) :
  probe x z = ray (vec3 x 2000 z) (vec3 0 (-1) 0)
  /\ (forall first rest,
        intersectGround (probe x z) = first :: rest ->
        getGroundHeightAt x z = vy (point first))
  /\ (intersectGround (probe x z) = [] -> getGroundHeightAt x z = -1000)
  /\ (forall h, h <= 2000 -> @getGroundHeightAt (flatEngine h) x z = h)
  /\ @getGroundHeightAt voidEngine x z = -1000.
Proof.
  split; [reflexivity |]. split; [| split; [| split]].
  - intros first rest H. unfold getGroundHeightAt. rewrite H. reflexivity.
  - intros H. unfold getGroundHeightAt. rewrite H. reflexivity.
  - intros h Hh. unfold getGroundHeightAt. simpl intersectGround.
    rewrite flatGround_probe by exact Hh. reflexivity.
  - reflexivity.
Qed.

(** C6 at an instance: flat ground of height 3, probed at (1, 2). *)
Lemma ground_height_witness : @getGroundHeightAt (flatEngine 3) 1 2 = 3.
Proof.
  apply (proj1 (proj2 (proj2 (proj2 (ground_height (flatEngine 3) 1 2))))).
  lra.
Defined.

(** ** Camera *)

Section CameraProperties.

Context {E : Engine}.





Lemma updateCamera_no_mesh (dt : R) (w : World) :
  mesh (vehicle w) = None ->
  updateCamera dt w
  = set_camera (set_controls w (fst (controlsUpdate (controls w) (camera w))))
               (snd (controlsUpdate (controls w) (camera w))).
Proof.
  intros Hm. unfold updateCamera. rewrite Hm.
  destruct (controlsUpdate (controls w) (camera w)).
  destruct (chaseCam w); reflexivity.
Qed.


(** C10.  Leaving chase mode, [toggleCamera] reads the mesh position
    unguarded: it faults exactly when no mesh is attached (the mode
    flag is flipped by then), and with a mesh it copies the mesh
    position into the orbit target; entering chase mode reads
    nothing.  Without a mesh the physics step leaves the vehicle
    alone and the camera update hands over to the orbit controls. *)
Theorem toggle_needs_mesh (w : World) :
  (chaseCam w = true ->
     (faults (toggleCamera w) <-> mesh (vehicle w) = None)
     /\ (mesh (vehicle w) = None ->
           toggleCamera w = Throws (set_chaseCam w false))
     /\ (forall m, mesh (vehicle w) = Some m ->
           toggleCamera w
           = Normal (set_controls (set_chaseCam w false)
                       (orbit (mesh_position m) (enabled (controls w))))))
  /\ (chaseCam w = false -> toggleCamera w = Normal (set_chaseCam w true))
  /\ (mesh (vehicle w) = None ->
        (forall now, vehicle (physicsStep now w) = vehicle w)
        /\ (forall dt,
              updateCamera dt w
              = set_camera
                  (set_controls w (fst (controlsUpdate (controls w) (camera w))))
                  (snd (controlsUpdate (controls w) (camera w))))).
Proof.
  split; [| split].
  - intros Hc. unfold toggleCamera. simpl. rewrite Hc. simpl.
    destruct (mesh (vehicle w)) as [m |]; simpl.
    + split; [split; [contradiction | discriminate] |].
      split; [discriminate |].
      intros m' Hm'. injection Hm' as <-. reflexivity.
    + split; [split; [reflexivity | intros _; exact I] |].
      split; [reflexivity |]. intros m' Hm'. discriminate Hm'.
  - intros Hc. unfold toggleCamera. simpl. rewrite Hc. reflexivity.
  - intros Hm. split.
    + intros now. unfold physicsStep. simpl.
      apply stepVehicle_unloaded, Hm.
    + intros dt. apply updateCamera_no_mesh, Hm.
Qed.

End CameraProperties.


(** C10 at an instance: the initial world (chase mode, model not yet
    loaded) faults on the toggle; once the vehicle is attached it does
    not. *)
Lemma toggle_needs_mesh_witness :
  @toggleCamera world0 = Throws (set_chaseCam world0 false)
  /\ ~ faults (@toggleCamera worldParked).
Proof.
  destruct (@toggle_needs_mesh (flatEngine 0) world0) as (Hchase & _ & _).
  destruct (Hchase eq_refl) as (_ & Hthrow & _).
  destruct (@toggle_needs_mesh (flatEngine 0) worldParked) as (Hchase' & _ & _).
  destruct (Hchase' eq_refl) as (Hiff & _ & _).
  split.
  - apply Hthrow. reflexivity.
  - intros Hf. apply Hiff in Hf. discriminate Hf.
Defined.

(** ** Time step and frames *)

Section Frames.

Context {E : Engine}.

Lemma stepDt_le (now last : R) : stepDt now last <= 0.05.
Proof.
  unfold stepDt. destruct (Rlt_dec 0.05 ((now - last) / 1000)); lra.
Qed.

Lemma stepDt_nonneg (now last : R) : last <= now -> 0 <= stepDt now last.
Proof.
  intros H. unfold stepDt.
  destruct (Rlt_dec 0.05 ((now - last) / 1000)); lra.
Qed.

(** The time step of [physicsStep] never exceeds 50 ms; when the clock
    has not run backwards it is not negative; it is the elapsed time
    in seconds whenever that is at most 50 ms, and 50 ms otherwise. *)
Theorem stepDt_clamped (now last : R) :
  stepDt now last <= 0.05
  /\ (last <= now -> 0 <= stepDt now last)
  /\ ((now - last) / 1000 <= 0.05 -> stepDt now last = (now - last) / 1000)
  /\ (0.05 < (now - last) / 1000 -> stepDt now last = 0.05).
Proof.
  split; [apply stepDt_le |]. split; [apply stepDt_nonneg |].
  unfold stepDt.
  destruct (Rlt_dec 0.05 ((now - last) / 1000)); split; intros; lra.
Qed.

Lemma integrateVelocity_dt0 (k : Keys) (v : Vehicle) (q : Quaternion) :
  integrateVelocity k 0 v q = velocity v.
Proof.
  unfold integrateVelocity, add, multiplyScalar, divideScalar; simpl.
  destruct (velocity v) as [x y z]; simpl. f_equal; ring.
Qed.

Lemma yawStep_still (q : Quaternion) (dt : R) : yawStep q 0 dt = q.
Proof.
  unfold yawStep, setFromAxisAngle, multiplyQuaternions; simpl.
  replace (0 * dt / 2) with 0 by (unfold Rdiv; ring).
  rewrite sin_0, cos_0. destruct q as [x y z w]; simpl. f_equal; ring.
Qed.

Lemma yawStep_dt0 (q : Quaternion) (rate : R) : yawStep q rate 0 = q.
Proof.
  unfold yawStep, setFromAxisAngle, multiplyQuaternions; simpl.
  replace (rate * 0 / 2) with 0 by (unfold Rdiv; ring).
  rewrite sin_0, cos_0. destruct q as [x y z w]; simpl. f_equal; ring.
Qed.

Lemma advance_dt0 (p : Vector3) (q : Quaternion) (vel : Vector3) :
  advance p q vel 0 = p.
Proof.
  unfold advance, addScaledVector. destruct p as [x y z]; simpl.
  f_equal; ring.
Qed.

(** A step with a zero time step changes nothing: two [physicsStep]
    calls at the same clock reading move the vehicle once. *)
Theorem zero_dt_step (k : Keys) (v : Vehicle) (now : R) (w : World) :
  stepVehicle k 0 v = v
  /\ vehicle (physicsStep now (physicsStep now w)) = vehicle (physicsStep now w).
Proof.
  assert (H0 : forall k' v', stepVehicle k' 0 v' = v').
  { intros k' v'. unfold stepVehicle.
    destruct v' as [[m |] p vel s ms wb mx dc rr]; [| reflexivity].
    cbn [mesh]. unfold stepMesh; cbv zeta.
    rewrite integrateVelocity_dt0, yawStep_dt0, advance_dt0; simpl.
    destruct m as [[x y z] q], vel as [a b c]; simpl.
    unfold steerStep, lerp; simpl.
    f_equal; [f_equal; f_equal; f_equal; ring | f_equal; ring | ring]. }
  split; [apply H0 |].
  unfold physicsStep at 1. simpl.
  replace (stepDt now now) with 0; [apply H0 |].
  unfold stepDt. replace ((now - now) / 1000) with 0 by (unfold Rdiv; ring).
  destruct (Rlt_dec 0.05 0); [lra | reflexivity].
Qed.

Lemma updateCamera_vehicle (dt : R) (w : World) :
  vehicle (updateCamera dt w) = vehicle w
  /\ keys (updateCamera dt w) = keys w
  /\ chaseCam (updateCamera dt w) = chaseCam w
  /\ last (updateCamera dt w) = last w.
Proof.
  unfold updateCamera.
  destruct (chaseCam w) eqn:Hc, (mesh (vehicle w)) eqn:Hm;
    try destruct (controlsUpdate (controls w) (camera w));
    simpl; rewrite ?Hc, ?Hm; repeat split; reflexivity.
Qed.

End Frames.

(** ** Heading, orientation and drive *)

Section Drive.

Context {E : Engine}.

Lemma normSq_nonneg (q : Quaternion) : 0 <= normSq q.
Proof. unfold normSq. nra. Qed.

(** Rotating by [q] scales lengths by the squared norm of [q]. *)
Lemma length_applyQuaternion (u : Vector3) (q : Quaternion) :
  length (applyQuaternion u q) = normSq q * length u.
Proof.
  unfold length at 1.
  replace (vx (applyQuaternion u q) * vx (applyQuaternion u q)
           + vy (applyQuaternion u q) * vy (applyQuaternion u q)
           + vz (applyQuaternion u q) * vz (applyQuaternion u q))
    with (Rsqr (normSq q) * (vx u * vx u + vy u * vy u + vz u * vz u)).
  - rewrite sqrt_mult; [| apply Rle_0_sqr | apply sumsq_nonneg].
    rewrite sqrt_Rsqr by apply normSq_nonneg. reflexivity.
  - destruct u as [x y z], q as [a b c d].
    unfold applyQuaternion, normSq, Rsqr; simpl. ring.
Qed.

Lemma heading_unit (q : Quaternion) : normSq q = 1 -> length (heading q) = 1.
Proof.
  intros Hq. unfold heading. rewrite length_applyQuaternion, Hq, length_axis_z.
  rewrite Rabs_pos_eq; lra.
Qed.

Lemma normalize_unit (a : Vector3) : length a = 1 -> normalize a = a.
Proof.
  intros Ha. unfold normalize. rewrite Ha.
  destruct (Req_dec_T 1 0) as [H | _]; [lra |].
  unfold divideScalar, multiplyScalar. destruct a as [x y z]; simpl.
  f_equal; field.
Qed.

(** The yaw update keeps the norm of the rotation. *)
Lemma yawStep_normSq (q : Quaternion) (rate dt : R) :
  normSq (yawStep q rate dt) = normSq q.
Proof.
  unfold yawStep, setFromAxisAngle, multiplyQuaternions, normSq; simpl.
  pose proof (sin2_cos2 (rate * dt / 2)) as Hsc. unfold Rsqr in Hsc.
  set (s := sin (rate * dt / 2)) in *. set (c := cos (rate * dt / 2)) in *.
  transitivity ((s * s + c * c)
                * (qx q * qx q + qy q * qy q + qz q * qz q + qw q * qw q));
    [ring | rewrite Hsc; ring].
Qed.

Lemma yawStep_upright (q : Quaternion) (rate dt : R) :
  uprightQ q -> uprightQ (yawStep q rate dt).
Proof.
  intros (Hx & Hz & Hn). split; [| split].
  - unfold yawStep, setFromAxisAngle, multiplyQuaternions; simpl.
    rewrite Hx, Hz. ring.
  - unfold yawStep, setFromAxisAngle, multiplyQuaternions; simpl.
    rewrite Hx, Hz. ring.
  - rewrite yawStep_normSq. exact Hn.
Qed.

Lemma stepVehicle_upright (k : Keys) (dt : R) (v : Vehicle) :
  upright v -> upright (stepVehicle k dt v).
Proof.
  unfold upright, stepVehicle. destruct (mesh v) as [m |] eqn:Hm.
  - simpl. apply yawStep_upright.
  - rewrite Hm. auto.
Qed.

Lemma identity_upright : uprightQ identity.
Proof. unfold uprightQ, normSq, identity; simpl. repeat split; ring. Qed.

Lemma heading_upright (q : Quaternion) :
  uprightQ q ->
  heading q = vec3 (2 * qy q * qw q) 0 (qw q * qw q - qy q * qy q).
Proof.
  intros (Hx & Hz & _). unfold heading, applyQuaternion; simpl.
  rewrite Hx, Hz. f_equal; ring.
Qed.

Lemma sign_cases (x : R) :
  (x <> 0 -> Rabs (sign x) = 1) /\ (x = 0 -> sign x = 0).
Proof.
  unfold sign. split; intros Hx.
  - destruct (Rlt_dec 0 x); [rewrite Rabs_pos_eq; lra |].
    destruct (Rlt_dec x 0); [| lra].
    rewrite Rabs_left; lra.
  - destruct (Rlt_dec 0 x); [lra |]. destruct (Rlt_dec x 0); [lra | reflexivity].
Qed.

(** The position update moves the mesh along its heading only.  For a
    unit rotation and a non-negative time step the distance covered is
    the full [speed * dt] whenever the velocity has any component
    along the heading, whatever its direction, and nothing at all when
    the velocity is exactly perpendicular to the heading; an upright
    vehicle keeps its height. *)
Theorem advance_along_heading (p : Vector3) (q : Quaternion)
    (vel : Vector3) (dt : R) :
  normSq q = 1 -> 0 <= dt ->
  (exists s, displacement p (advance p q vel dt) = multiplyScalar (heading q) s)
  /\ (dot vel (heading q) <> 0 ->
        length (displacement p (advance p q vel dt)) = length vel * dt)
  /\ (dot vel (heading q) = 0 -> advance p q vel dt = p)
  /\ (uprightQ q -> vy (advance p q vel dt) = vy p).
Proof.
  intros Hq Hdt.
  assert (Hdisp : displacement p (advance p q vel dt)
                  = multiplyScalar (heading q)
                      (length vel * dt * sign (dot vel (heading q)))).
  { unfold displacement, advance, addScaledVector, multiplyScalar, heading.
    simpl. f_equal; ring. }
  split; [eexists; exact Hdisp |]. split; [| split].
  - intros Hne. rewrite Hdisp, length_multiplyScalar, (heading_unit q Hq).
    rewrite !Rabs_mult, (proj1 (sign_cases _) Hne).
    rewrite (Rabs_pos_eq (length vel)) by apply length_nonneg.
    rewrite (Rabs_pos_eq dt) by exact Hdt. ring.
  - intros Hz. unfold advance, addScaledVector. fold (heading q).
    rewrite (proj2 (sign_cases _) Hz). destruct p as [x y z]; simpl.
    f_equal; ring.
  - intros Hup. unfold advance, addScaledVector. fold (heading q).
    rewrite (heading_upright q Hup). simpl. ring.
Qed.

(** Driving straight.  When the rotation is a unit quaternion and the
    velocity points along the heading with speed [s >= 0], the
    integration keeps it along the heading and changes the speed by
    [(throttle * 8000 - dragCoef * s^2 - rollingResistance * s) * dt / mass].
    So, for positive [dt] and [mass], the speed rises when the engine
    force exceeds the resistance, falls when it is below, and is
    unchanged exactly at the terminal speed where they balance. *)
Theorem straight_line_drive (k : Keys) (dt s : R) (v : Vehicle)
    (q : Quaternion) :
  normSq q = 1 -> 0 <= s ->
  velocity v = multiplyScalar (heading q) s ->
  let drive := throttle k * 8000
               - (dragCoef v * s * s + rollingResistance v * s) in
  let s' := s + drive * dt / mass v in
  integrateVelocity k dt v q = multiplyScalar (heading q) s'
  /\ (0 < dt -> 0 < mass v ->
        (0 < drive -> s < s') /\ (drive < 0 -> s' < s) /\ (drive = 0 -> s' = s)).
Proof.
  intros Hq Hs Hvel drive s'.
  pose proof (heading_unit q Hq) as Hlen.
  split.
  - unfold integrateVelocity. fold (heading q).
    rewrite (normalize_unit _ Hlen), Hvel, length_multiplyScalar, Hlen.
    rewrite (Rabs_pos_eq s) by exact Hs.
    unfold s', drive, maxEngine, add, divideScalar, multiplyScalar, zero.
    destruct (heading q) as [hx hy hz]; simpl.
    f_equal; unfold Rdiv; ring.
  - intros Hdt Hm.
    assert (Hi : 0 < dt / mass v) by (apply Rdiv_lt_0_compat; assumption).
    unfold s'. replace (drive * dt / mass v) with (drive * (dt / mass v))
      by (unfold Rdiv; ring).
    repeat split; intros Hd; nra.
Qed.

End Drive.

(** ** Suspension *)

Section Suspension.

Context {E : Engine}.

Lemma length_zero : length zero = 0.
Proof. unfold zero. rewrite length_axis_z. apply Rabs_R0. Qed.

Lemma integrateVelocity_rest (k : Keys) (dt : R) (v : Vehicle)
    (q : Quaternion) :
  forward k = false -> back k = false -> velocity v = zero ->
  integrateVelocity k dt v q = zero.
Proof.
  intros Hf Hb Hv. rewrite integrateVelocity_coast by assumption.
  rewrite Hv. unfold multiplyScalar, zero; simpl. f_equal; ring.
Qed.

Lemma angularVel_zero (wb steer : R) : angularVel zero wb steer = 0.
Proof.
  unfold angularVel; simpl.
  destruct (Req_dec_T 0 0) as [_ | H]; [reflexivity | contradiction].
Qed.

Lemma advance_zero (p : Vector3) (q : Quaternion) (dt : R) :
  advance p q zero dt = p.
Proof.
  unfold advance, addScaledVector. rewrite length_zero.
  destruct p as [x y z]; simpl. f_equal; ring.
Qed.

Lemma steerStep_centred (k : Keys) (dt : R) (v : Vehicle) :
  left k = right k -> steerAngle v = 0 -> steerStep k dt v = 0.
Proof.
  intros Hk Hs. unfold steerStep, targetSteer, steerInput, lerp.
  rewrite Hk, Hs. destruct (right k); ring.
Qed.

Lemma suspension_height (k : Keys) (dt : R) (v : Vehicle) (m : Mesh) :
  mesh v = Some m -> uprightQ (mesh_quaternion m) ->
  exists m',
    mesh (stepVehicle k dt v) = Some m'
    /\ vy (velocity (stepVehicle k dt v))
       = vy (integrateVelocity k dt v (mesh_quaternion m))
         + ((getGroundHeightAt (vx (mesh_position m')) (vz (mesh_position m'))
             + 0.8 - vy (mesh_position m)) * 80 - 9.81) * dt
    /\ vy (mesh_position m')
       = vy (mesh_position m) + vy (velocity (stepVehicle k dt v)) * dt.
Proof.
  intros Hm Hup. unfold stepVehicle. rewrite Hm.
  eexists. split; [reflexivity |].
  unfold stepMesh. cbv zeta. cbn [mesh_position velocity vx vy vz].
  set (vel := integrateVelocity k dt v (mesh_quaternion m)).
  set (q' := yawStep (mesh_quaternion m)
               (angularVel vel (wheelBase v) (steerStep k dt v)) dt).
  assert (Hq' : uprightQ q') by (apply yawStep_upright, Hup).
  assert (Hy : vy (advance (mesh_position m) q' vel dt) = vy (mesh_position m)).
  { unfold advance, addScaledVector. fold (heading q').
    rewrite (heading_upright q' Hq'). simpl. ring. }
  rewrite Hy. split; ring.
Qed.

(** The height and the vertical velocity of an upright vehicle change
    through the suspension only: with [g] the ground height sampled
    under the new horizontal position and [y] the old height, the
    vertical velocity (after drag) gains [((g + 0.8 - y) * 80 - 9.81) * dt]
    and the height gains the new vertical velocity times [dt]. *)
Theorem suspension_step (k : Keys) (dt : R) (v : Vehicle) (m : Mesh) :
  mesh v = Some m -> uprightQ (mesh_quaternion m) ->
  exists m',
    mesh (stepVehicle k dt v) = Some m'
    /\ vy (velocity (stepVehicle k dt v))
       = vy (integrateVelocity k dt v (mesh_quaternion m))
         + ((getGroundHeightAt (vx (mesh_position m')) (vz (mesh_position m'))
             + 0.8 - vy (mesh_position m)) * 80 - 9.81) * dt
    /\ vy (mesh_position m')
       = vy (mesh_position m) + vy (velocity (stepVehicle k dt v)) * dt.
Proof. exact (suspension_height k dt v m). Qed.

End Suspension.

(** ** Camera toggle *)

Section CameraFrames.

Context {E : Engine}.

(** With the mesh attached the camera toggle never faults and touches
    nothing but the mode flag and the orbit target; two toggles bring
    the mode back and leave the orbit target at the mesh position. *)
Theorem toggle_twice (w : World) (m : Mesh) :
  mesh (vehicle w) = Some m ->
  ~ faults (toggleCamera w)
  /\ vehicle (stateOf (toggleCamera w)) = vehicle w
  /\ camera (stateOf (toggleCamera w)) = camera w
  /\ keys (stateOf (toggleCamera w)) = keys w
  /\ chaseCam (stateOf (toggleCamera w)) = negb (chaseCam w)
  /\ chaseCam (stateOf (toggleCamera (stateOf (toggleCamera w)))) = chaseCam w
  /\ target (controls (stateOf (toggleCamera (stateOf (toggleCamera w)))))
     = mesh_position m.
Proof.
  intros Hm. unfold toggleCamera. simpl. rewrite Hm.
  destruct (chaseCam w); simpl; rewrite ?Hm; simpl;
    repeat split; auto.
Qed.

End CameraFrames.

(** ** Keyboard *)

Lemma keys_toggleCamera (w : World) :
  keys (stateOf (toggleCamera w)) = keys w
  /\ vehicle (stateOf (toggleCamera w)) = vehicle w.
Proof.
  unfold toggleCamera; simpl.
  destruct (chaseCam w); simpl;
    [destruct (mesh (vehicle w)); simpl |]; split; reflexivity.
Qed.

Lemma keys_keydown (e : KeyEvent) (w : World) :
  keys (stateOf (keydown e w)) = latch e true (keys w).
Proof.
  unfold keydown.
  destruct (toLowerCase (key e) =? "c")%string.
  - pose proof (keys_toggleCamera (set_keys w (latch e true (keys w))))
      as [Hk _].
    destruct (toggleCamera (set_keys w (latch e true (keys w)))) as [w' | w'];
      simpl in *.
    + destruct (toLowerCase (key e) =? "r")%string; simpl; exact Hk.
    + exact Hk.
  - destruct (toLowerCase (key e) =? "r")%string; reflexivity.
Qed.

Section Flag.

(** One of the five flags: its projection [get] and the test [f] that
    tells whether an event addresses it. *)
Variable get : Keys -> bool.
Variable f : KeyEvent -> bool.
Hypothesis get_latch :
  forall e b k, get (latch e b k) = if f e then b else get k.

Lemma get_after_downs (l : list KeyEvent) (k : Keys) :
  get (fold_left (fun k e => latch e true k) l k)
  = existsb f l || get k.
Proof.
  revert k. induction l as [| e l IH]; intros k; simpl; [reflexivity |].
  rewrite IH, get_latch. destruct (f e), (existsb f l); reflexivity.
Qed.

Lemma get_after_ups (l : list KeyEvent) (k : Keys) :
  get (fold_left (fun k e => latch e false k) l k)
  = negb (existsb f l) && get k.
Proof.
  revert k. induction l as [| e l IH]; intros k; simpl; [reflexivity |].
  rewrite IH, get_latch. destruct (f e), (existsb f l); reflexivity.
Qed.

Lemma get_released (pressed released : list KeyEvent) (k : Keys) :
  incl pressed released -> get k = false ->
  get (fold_left (fun k e => latch e false k) released
         (fold_left (fun k e => latch e true k) pressed k)) = false.
Proof.
  intros Hincl Hk. rewrite get_after_ups, get_after_downs, Hk.
  destruct (existsb f pressed) eqn:Hp; [| apply andb_false_r].
  apply existsb_exists in Hp. destruct Hp as (e & Hin & Hfe).
  assert (Hr : existsb f released = true)
    by (apply existsb_exists; exists e; split; [apply Hincl, Hin | exact Hfe]).
  rewrite Hr. reflexivity.
Qed.

End Flag.

Lemma keys_dispatch_downs (l : list KeyEvent) (w : World) :
  keys (fold_left dispatch (map KeyDown l) w)
  = fold_left (fun k e => latch e true k) l (keys w).
Proof.
  revert w. induction l as [| e l IH]; intros w; simpl; [reflexivity |].
  rewrite IH, keys_keydown. reflexivity.
Qed.

Lemma keys_dispatch_ups (l : list KeyEvent) (w : World) :
  keys (fold_left dispatch (map KeyUp l) w)
  = fold_left (fun k e => latch e false k) l (keys w).
Proof.
  revert w. induction l as [| e l IH]; intros w; simpl; [reflexivity |].
  rewrite IH. reflexivity.
Qed.

(** No key stays stuck: starting with no flag set, after any presses
    followed by releases that include every pressed event (in any
    order, with any extra releases), all five flags are clear again,
    whatever the presses did to the camera or the vehicle and whether
    or not a listener faulted on the way. *)
Theorem no_stuck_keys (pressed released : list KeyEvent) (w : World) :
  incl pressed released -> keys w = keys0 ->
  keys (fold_left dispatch (map KeyDown pressed ++ map KeyUp released) w)
  = keys0.
Proof.
  intros Hincl Hk.
  rewrite fold_left_app, keys_dispatch_ups, keys_dispatch_downs, Hk.
  set (k := fold_left (fun k e => latch e false k) released
              (fold_left (fun k e => latch e true k) pressed keys0)).
  assert (Hf : forward k = false).
  { apply (get_released forward
             (fun e => (toLowerCase (key e) =? "w")%string));
      [| exact Hincl | reflexivity].
    intros e b k'. unfold latch.
    destruct (toLowerCase (key e) =? "w")%string,
             (toLowerCase (key e) =? "s")%string,
             (toLowerCase (key e) =? "a")%string,
             (toLowerCase (key e) =? "d")%string,
             (code e =? "Space")%string; reflexivity. }
  assert (Hb : back k = false).
  { apply (get_released back
             (fun e => (toLowerCase (key e) =? "s")%string));
      [| exact Hincl | reflexivity].
    intros e b k'. unfold latch.
    destruct (toLowerCase (key e) =? "w")%string,
             (toLowerCase (key e) =? "s")%string,
             (toLowerCase (key e) =? "a")%string,
             (toLowerCase (key e) =? "d")%string,
             (code e =? "Space")%string; reflexivity. }
  assert (Hl : left k = false).
  { apply (get_released left
             (fun e => (toLowerCase (key e) =? "a")%string));
      [| exact Hincl | reflexivity].
    intros e b k'. unfold latch.
    destruct (toLowerCase (key e) =? "w")%string,
             (toLowerCase (key e) =? "s")%string,
             (toLowerCase (key e) =? "a")%string,
             (toLowerCase (key e) =? "d")%string,
             (code e =? "Space")%string; reflexivity. }
  assert (Hr : right k = false).
  { apply (get_released right
             (fun e => (toLowerCase (key e) =? "d")%string));
      [| exact Hincl | reflexivity].
    intros e b k'. unfold latch.
    destruct (toLowerCase (key e) =? "w")%string,
             (toLowerCase (key e) =? "s")%string,
             (toLowerCase (key e) =? "a")%string,
             (toLowerCase (key e) =? "d")%string,
             (code e =? "Space")%string; reflexivity. }
  assert (Hh : handbrake k = false).
  { apply (get_released handbrake (fun e => (code e =? "Space")%string));
      [| exact Hincl | reflexivity].
    intros e b k'. unfold latch.
    destruct (toLowerCase (key e) =? "w")%string,
             (toLowerCase (key e) =? "s")%string,
             (toLowerCase (key e) =? "a")%string,
             (toLowerCase (key e) =? "d")%string,
             (code e =? "Space")%string; reflexivity. }
  destruct k as [kf kb kl kr kh]; simpl in *. subst. reflexivity.
Qed.

(** What a key press can do besides latching flags.  The listener
    faults exactly when the key is C (either case), the camera is in
    chase mode and no mesh is attached, and the mode is switched to
    orbit even then; the key R, and no other, resets the vehicle; the
    key C, and no other, flips the camera mode. *)
Theorem keydown_effects (e : KeyEvent) (w : World) :
  (faults (keydown e w)
   <-> toLowerCase (key e) = "c"%string
       /\ chaseCam w = true /\ mesh (vehicle w) = None)
  /\ vehicle (stateOf (keydown e w))
     = (if (toLowerCase (key e) =? "r")%string
        then resetVehicle (vehicle w) else vehicle w)
  /\ chaseCam (stateOf (keydown e w))
     = (if (toLowerCase (key e) =? "c")%string
        then negb (chaseCam w) else chaseCam w).
Proof.
  unfold keydown.
  destruct (String.eqb_spec (toLowerCase (key e)) "c") as [Hc | Hc].
  - rewrite Hc. simpl (("c" =? "r")%string).
    unfold toggleCamera; simpl.
    destruct (chaseCam w); simpl.
    + destruct (mesh (vehicle w)) as [m |]; simpl.
      * split; [split; [contradiction | intros (_ & _ & H); discriminate H] |].
        split; reflexivity.
      * split; [split; [intros _; repeat split | intros _; exact I] |].
        split; reflexivity.
    + split; [split; [contradiction | intros (_ & H & _); discriminate H] |].
      split; reflexivity.
  - split; [split; [| intros (H & _); contradiction] |].
    + destruct (toLowerCase (key e) =? "r")%string; contradiction.
    + destruct (toLowerCase (key e) =? "r")%string; split; reflexivity.
Qed.




(** ** Static data *)

Lemma apply_static (E : Engine) (i : Input) (v : Vehicle) :
  position (apply v i) = position v
  /\ mass (apply v i) = mass v
  /\ wheelBase (apply v i) = wheelBase v
  /\ maxSteer (apply v i) = maxSteer v
  /\ dragCoef (apply v i) = dragCoef v
  /\ rollingResistance (apply v i) = rollingResistance v.
Proof.
  destruct i as [k dt | | q]; simpl.
  - unfold stepVehicle. destruct (mesh v); simpl; repeat split; reflexivity.
  - unfold resetVehicle. destruct (mesh v); simpl; repeat split; reflexivity.
  - repeat split; reflexivity.
Qed.

(** Nothing ever writes [vehicle.position] or the physical parameters:
    after any run of frames (with any time steps), resets and mesh
    attachments they are what they were at the start. *)
Theorem static_data_fixed (E : Engine) (inputs : list Input) (v : Vehicle) :
  position (run inputs v) = position v
  /\ mass (run inputs v) = mass v
  /\ wheelBase (run inputs v) = wheelBase v
  /\ maxSteer (run inputs v) = maxSteer v
  /\ dragCoef (run inputs v) = dragCoef v
  /\ rollingResistance (run inputs v) = rollingResistance v.
Proof.
  unfold run. revert v.
  induction inputs as [| i rest IH]; intros v; simpl.
  - repeat split; reflexivity.
  - destruct (IH (apply v i)) as (H1 & H2 & H3 & H4 & H5 & H6).
    destruct (apply_static E i v) as (A1 & A2 & A3 & A4 & A5 & A6).
    rewrite H1, H2, H3, H4, H5, H6. repeat split; assumption.
Qed.

(** ** Terrain *)

(** Every terrain vertex lies between -16 and 16, so strictly above
    the sentinel height -1000 that reports missing ground and strictly
    below the altitude 2000 the probe starts from. *)
Theorem terrain_within_probe_range (x z : R) :
  -16 <= terrainHeight x z <= 16
  /\ -1000 < terrainHeight x z < vy (origin (probe x z)).
Proof.
  unfold terrainHeight. simpl.
  pose proof (SIN_bound (x * 0.01)) as Hs.
  pose proof (COS_bound (z * 0.007)) as Hc.
  lra.
Qed.

(** ** Instances *)

(** Rolling straight ahead at 30 m/s for 50 ms covers 1.5 m. *)
Lemma advance_along_heading_witness :
  length (displacement zero (advance zero identity (vec3 0 0 30) 0.05))
  = length (vec3 0 0 30) * 0.05.
Proof.
  assert (Hn : normSq identity = 1) by (apply identity_upright).
  assert (Hdt : 0 <= 0.05) by lra.
  apply (proj1 (proj2 (advance_along_heading zero identity (vec3 0 0 30) 0.05
                         Hn Hdt))).
  unfold dot, heading, applyQuaternion, identity; simpl. lra.
Defined.

(** Pulling away from rest: the first 50 ms frame with the forward key
    held. *)
Lemma straight_line_drive_witness :
  integrateVelocity forwardKeys 0.05 parked identity
  = multiplyScalar (heading identity)
      (0 + (throttle forwardKeys * 8000
            - (dragCoef parked * 0 * 0 + rollingResistance parked * 0))
           * 0.05 / mass parked).
Proof.
  assert (Hn : normSq identity = 1) by (apply identity_upright).
  assert (Hs : 0 <= 0) by lra.
  refine (proj1 (straight_line_drive forwardKeys 0.05 0 parked identity
                   Hn Hs _)).
  unfold heading, applyQuaternion, multiplyScalar, identity; simpl.
  f_equal; ring.
Defined.

(** The placeholder car dropped at height 20 over flat ground. *)
Lemma suspension_step_witness :
  exists m',
    mesh (@stepVehicle (flatEngine 0) keys0 0.05 parked) = Some m'
    /\ vy (mesh_position m')
       = 20 + vy (velocity (@stepVehicle (flatEngine 0) keys0 0.05 parked)) * 0.05.
Proof.
  destruct (@suspension_step (flatEngine 0) keys0 0.05 parked
              (mkMesh (vec3 0 20 0) identity) eq_refl identity_upright)
    as (m' & Hm' & _ & Hy).
  exists m'. split; [exact Hm' | exact Hy].
Defined.

(** Two toggles with the placeholder attached. *)
Lemma toggle_twice_witness :
  chaseCam (stateOf (toggleCamera (stateOf (toggleCamera worldParked)))) = true.
Proof.
  destruct (toggle_twice worldParked (mkMesh (vec3 0 20 0) identity) eq_refl)
    as (_ & _ & _ & _ & _ & H & _).
  exact H.
Defined.

(** W and the space bar pressed, then released in the other order. *)
Lemma no_stuck_keys_witness :
  keys (fold_left dispatch
          (map KeyDown [keyEvent "w" "KeyW"; keyEvent " " "Space"]
           ++ map KeyUp [keyEvent " " "Space"; keyEvent "w" "KeyW"])
          world0)
  = keys0.
Proof.
  apply no_stuck_keys; [| reflexivity].
  intros e [He | [He | []]]; subst; simpl; auto.
Defined.


(** ** Steering under rounding *)

Section RoundedSteering.

Variable rnd : R -> R.
Variables u eta : R.
Hypothesis rounding : Rounding rnd u eta.

Lemma rnd_magnitude (z : R) :
  Rabs z <= 4 -> Rabs (rnd z) <= Rabs z * (1 + u) + eta.
Proof.
  intros Hz. pose proof (rnd_error _ _ _ rounding z Hz) as He.
  replace (rnd z) with ((rnd z - z) + z) by ring.
  pose proof (Rabs_triang (rnd z - z) z). lra.
Qed.

Lemma rnd_unit_interval (z : R) : 0 <= z <= 1 -> 0 <= rnd z <= 1.
Proof.
  intros [H0 H1]. split.
  - rewrite <- (rnd_0 _ _ _ rounding). apply (rnd_monotone _ _ _ rounding), H0.
  - rewrite <- (rnd_1 _ _ _ rounding). apply (rnd_monotone _ _ _ rounding), H1.
Qed.

Lemma cube_slack : (1 + u) * ((1 + u) * (1 + u)) <= 1 + 4 * u.
Proof.
  destruct (u_range _ _ _ rounding) as [Hu0 Hu1].
  assert (H2 : (1 + u) * (1 + u) <= 1 + 17 / 8 * u) by nra.
  assert (H2' : 0 <= (1 + u) * (1 + u)) by nra.
  nra.
Qed.

(** One rounded interpolation between two values within [M] ends
    within [M * (1 + 4 u) + 5 eta]. *)
Lemma lerpRounded_bound (x y t M : R) :
  0 <= t <= 1 -> Rabs x <= M -> Rabs y <= M -> M <= 1 ->
  Rabs (lerpRounded rnd x y t) <= M * (1 + 4 * u) + 5 * eta.
Proof.
  intros [Ht0 Ht1] Hx Hy HM.
  destruct (u_range _ _ _ rounding) as [Hu0 Hu1].
  destruct (eta_range _ _ _ rounding) as [He0 He1].
  assert (HM0 : 0 <= M) by (pose proof (Rabs_pos x); lra).
  unfold lerpRounded.
  set (s := rnd (1 - t)).
  assert (Hs01 : 0 <= s <= 1) by (apply rnd_unit_interval; lra).
  assert (Hs : s <= (1 - t) * (1 + u) + eta).
  { assert (H4 : Rabs (1 - t) <= 4) by (rewrite Rabs_pos_eq; lra).
    pose proof (rnd_error _ _ _ rounding (1 - t) H4) as He.
    rewrite (Rabs_pos_eq (1 - t)) in He by lra.
    fold s in He. apply Rabs_le_between in He. lra. }
  assert (Hsx : Rabs (s * x) <= s * M).
  { rewrite Rabs_mult, (Rabs_pos_eq s) by lra.
    apply Rmult_le_compat_l; lra. }
  assert (Hty : Rabs (t * y) <= t * M).
  { rewrite Rabs_mult, (Rabs_pos_eq t) by lra.
    apply Rmult_le_compat_l; lra. }
  assert (HsM : s * M <= 1).
  { replace 1 with (1 * 1) by lra. apply Rmult_le_compat; lra. }
  assert (HtM : t * M <= 1).
  { replace 1 with (1 * 1) by lra. apply Rmult_le_compat; lra. }
  set (a := rnd (s * x)). set (b := rnd (t * y)).
  assert (Ha : Rabs a <= s * M * (1 + u) + eta).
  { pose proof (rnd_magnitude (s * x)) as H. fold a in H.
    assert (Rabs (s * x) * (1 + u) <= s * M * (1 + u))
      by (apply Rmult_le_compat_r; lra).
    lra. }
  assert (Hb : Rabs b <= t * M * (1 + u) + eta).
  { pose proof (rnd_magnitude (t * y)) as H. fold b in H.
    assert (Rabs (t * y) * (1 + u) <= t * M * (1 + u))
      by (apply Rmult_le_compat_r; lra).
    lra. }
  assert (Hab : Rabs (a + b) <= (s + t) * M * (1 + u) + 2 * eta).
  { pose proof (Rabs_triang a b). lra. }
  assert (Htu : 0 <= t * u) by (apply Rmult_le_pos; lra).
  assert (Hst : s + t <= 1 + u + eta) by lra.
  assert (HstM : (s + t) * M <= (1 + u + eta) * M)
    by (apply Rmult_le_compat_r; lra).
  assert (HstMu : (s + t) * M * (1 + u) <= (1 + u + eta) * M * (1 + u))
    by (apply Rmult_le_compat_r; lra).
  assert (Hq0 : 0 <= (1 + u) * (1 + u)) by (apply Rmult_le_pos; lra).
  assert (Hq : (1 + u) * (1 + u) <= 81 / 64).
  { replace (81 / 64) with (9 / 8 * (9 / 8)) by lra.
    apply Rmult_le_compat; lra. }
  assert (Hp1 : 0 <= (1 + u + eta) * M) by (apply Rmult_le_pos; lra).
  assert (Hp2 : (1 + u + eta) * M <= 5 / 4).
  { replace (5 / 4) with (5 / 4 * 1) by lra. apply Rmult_le_compat; lra. }
  assert (Hp3 : (1 + u + eta) * M * (1 + u) <= 5 / 4 * (9 / 8))
    by (apply Rmult_le_compat; lra).
  assert (Hab4 : Rabs (a + b) <= 4) by lra.
  pose proof (rnd_magnitude (a + b) Hab4) as Hr.
  pose proof cube_slack as Hcube.
  assert (Hmain : Rabs (a + b) * (1 + u)
                  <= M * (1 + 4 * u) + 4 * eta).
  { assert (H1 : Rabs (a + b) * (1 + u)
                 <= ((1 + u + eta) * M * (1 + u) + 2 * eta) * (1 + u))
      by (apply Rmult_le_compat_r; lra).
    assert (H2 : M * ((1 + u) * ((1 + u) * (1 + u))) <= M * (1 + 4 * u))
      by (apply Rmult_le_compat_l; lra).
    assert (H3 : eta * (M * ((1 + u) * (1 + u))) <= eta * (81 / 64)).
    { apply Rmult_le_compat_l; [lra |].
      replace (81 / 64) with (1 * (81 / 64)) by lra.
      apply Rmult_le_compat; lra. }
    assert (H4 : 2 * eta * (1 + u) <= 2 * eta * (9 / 8))
      by (apply Rmult_le_compat_l; lra).
    replace (((1 + u + eta) * M * (1 + u) + 2 * eta) * (1 + u))
      with (M * ((1 + u) * ((1 + u) * (1 + u)))
            + eta * (M * ((1 + u) * (1 + u))) + 2 * eta * (1 + u))
      in H1 by ring.
    lra. }
  lra.
Qed.

Variable m : R.
Hypothesis m_exact : rnd m = m.
Hypothesis opp_m_exact : rnd (- m) = - m.

Lemma targetRounded_bounded (k : Keys) :
  0 <= m -> Rabs (rnd (steerInput k * m)) <= m.
Proof.
  intros Hm.
  destruct (steerInput_cases k) as [H | [H | H]]; rewrite H.
  - replace (-1 * m) with (- m) by ring.
    rewrite opp_m_exact, Rabs_Ropp, Rabs_pos_eq; lra.
  - replace (0 * m) with 0 by ring.
    rewrite (rnd_0 _ _ _ rounding), Rabs_R0. exact Hm.
  - replace (1 * m) with m by ring.
    rewrite m_exact, Rabs_pos_eq; lra.
Qed.

Lemma steerStepRounded_bound (k : Keys) (dt x M : R) :
  0 < dt <= 0.05 -> 0 <= m -> m <= M -> M <= 1 -> Rabs x <= M ->
  Rabs (steerStepRounded rnd m k dt x) <= M * (1 + 4 * u) + 5 * eta.
Proof.
  intros Hdt Hm HmM HM Hx. unfold steerStepRounded.
  apply lerpRounded_bound; try assumption.
  - apply rnd_unit_interval. lra.
  - pose proof (targetRounded_bounded k Hm). lra.
Qed.

Lemma steerSlack_grows (n : nat) :
  0 <= m -> m <= steerSlack u eta m n /\ steerSlack u eta m n <= steerSlack u eta m (S n).
Proof.
  intros Hm.
  destruct (u_range _ _ _ rounding) as [Hu0 _].
  destruct (eta_range _ _ _ rounding) as [He0 _].
  induction n as [| n [IH1 IH2]]; simpl in *.
  - split; nra.
  - split; nra.
Qed.

Lemma steerRunRounded_bound (frames : list (Keys * R)) (x : R) (n : nat) :
  0 <= m -> Forall frameOk frames ->
  Rabs x <= steerSlack u eta m n ->
  steerSlack u eta m (n + List.length frames) <= 1 ->
  Rabs (steerRunRounded rnd m frames x)
  <= steerSlack u eta m (n + List.length frames).
Proof.
  intros Hm Hf. revert x n.
  induction Hf as [| f frames Hf1 _ IH]; intros x n Hx Hn.
  - simpl in *. rewrite Nat.add_0_r in *. exact Hx.
  - cbn [List.length] in *. rewrite Nat.add_succ_r in *.
    change (S (n + List.length frames)) with (S n + List.length frames)%nat in *.
    unfold steerRunRounded in *. cbn [fold_left].
    apply IH; [| exact Hn].
    cbn [steerSlack]. apply steerStepRounded_bound; try assumption.
    + apply (steerSlack_grows n Hm).
    + apply Rle_trans with (2 := Hn).
      clear - Hm rounding. induction (List.length frames) as [| j IHj].
      * rewrite Nat.add_0_r. apply (steerSlack_grows n Hm).
      * rewrite Nat.add_succ_r.
        apply Rle_trans with (1 := IHj).
        apply (steerSlack_grows (S n + j)%nat Hm).
Qed.

(** C1, as the code has it.  Every operation of line 204 is rounded.
    With a rounding that behaves like binary64 rounding to nearest
    (relative error [u], absolute error [eta] near zero), a
    representable [maxSteer = m] and time steps in (0, 0.05], the
    steering angle after a run of [n] frames that starts within
    [maxSteer] stays within [steerSlack u eta m n], the bound that
    starts at [maxSteer] and grows by the factor [1 + 4 u] and the
    term [5 eta] per frame (as long as that is at most 1); in exact
    arithmetic ([u = eta = 0]) this bound is [maxSteer] itself. *)
Theorem steer_bound_with_rounding (frames : list (Keys * R)) (x : R) :
  Forall frameOk frames ->
  Rabs x <= m ->
  steerSlack u eta m (List.length frames) <= 1 ->
  Rabs (steerRunRounded rnd m frames x) <= steerSlack u eta m (List.length frames)
  /\ (u = 0 -> eta = 0 -> Rabs (steerRunRounded rnd m frames x) <= m).
Proof.
  intros Hf Hx Hn.
  assert (Hm : 0 <= m) by (pose proof (Rabs_pos x); lra).
  assert (Hb : Rabs (steerRunRounded rnd m frames x)
               <= steerSlack u eta m (List.length frames))
    by (apply (steerRunRounded_bound frames x 0 Hm Hf Hx Hn)).
  split; [exact Hb |].
  intros Hu He.
  assert (Hs : forall n, steerSlack u eta m n = m).
  { induction n as [| n IH]; simpl; [reflexivity |].
    rewrite IH, Hu, He. ring. }
  rewrite Hs in Hb. exact Hb.
Qed.

End RoundedSteering.

(** With the identity as rounding, the rounded step is the step of
    the exact model. *)
Lemma steerStepRounded_exact (k : Keys) (dt : R) (v : Vehicle) :
  steerStepRounded (fun z => z) (maxSteer v) k dt (steerAngle v)
  = steerStep k dt v.
Proof. reflexivity. Qed.

Lemma binary64_constants_small :
  0 <= binary64_u <= 1 / 1024 /\ 0 <= binary64_eta <= 1 / 1024.
Proof.
  assert (H : forall n, (10 <= n)%nat -> 0 <= / 2 ^ n <= 1 / 1024).
  { intros n Hn.
    assert (Hpos : 0 < 2 ^ n) by (apply pow_lt; lra).
    assert (Hge : 2 ^ 10 <= 2 ^ n) by (apply Rle_pow; [lra | exact Hn]).
    assert (H10 : 2 ^ 10 = 1024) by (simpl; lra).
    split; [left; apply Rinv_0_lt_compat; exact Hpos |].
    replace (1 / 1024) with (/ 2 ^ 10) by (rewrite H10; lra).
    apply Rinv_le_contravar; [rewrite H10; lra | exact Hge]. }
  unfold binary64_u, binary64_eta. split; apply H.
  - repeat constructor.
  - apply Nat.leb_le. vm_compute. reflexivity.
Qed.

(** Exact arithmetic is one instance of the rounding conditions. *)
Lemma exact_rounding (u eta : R) :
  0 <= u <= 1 / 8 -> 0 <= eta <= 1 / 8 -> Rounding (fun z => z) u eta.
Proof.
  intros Hu He. constructor; auto.
  intros z _. replace (z - z) with 0 by ring. rewrite Rabs_R0.
  pose proof (Rabs_pos z).
  assert (0 <= u * Rabs z) by (apply Rmult_le_pos; lra). lra.
Qed.

Lemma roundToGrid_exact (z : Z) : roundToGrid (IZR z / 1024) = IZR z / 1024.
Proof.
  unfold roundToGrid. replace (IZR z / 1024 * 1024) with (IZR z) by lra.
  rewrite ZfloorZ. reflexivity.
Qed.

(** Rounding down to multiples of 1/1024 meets the rounding conditions
    with no relative and 1/1024 absolute error. *)
Lemma grid_rounding : Rounding roundToGrid 0 (1 / 1024).
Proof.
  constructor; try lra.
  - intros x y Hxy. unfold roundToGrid.
    assert (Hz : (Zfloor (x * 1024) <= Zfloor (y * 1024))%Z)
      by (apply Zfloor_le; lra).
    apply IZR_le in Hz. lra.
  - replace 0 with (IZR 0 / 1024) by lra. apply roundToGrid_exact.
  - replace 1 with (IZR 1024 / 1024) by lra. apply roundToGrid_exact.
  - intros z _. unfold roundToGrid.
    pose proof (Zfloor_bound (z * 1024)) as [Hlo Hhi].
    apply Rabs_le. lra.
Qed.

(** C1 at an instance with an actual rounding: [maxSteer = 1/2], every
    operation rounded down to a multiple of 1/1024, a frame of 50 ms
    steering left and one of 16 ms with no key, from the wheels
    straight. *)
Lemma steer_bound_with_rounding_witness :
  Rabs (steerRunRounded roundToGrid (1 / 2)
          [(leftKeys, 0.05); (keys0, 0.016)] 0)
  <= steerSlack 0 (1 / 1024) (1 / 2) 2.
Proof.
  assert (Hm : roundToGrid (1 / 2) = 1 / 2).
  { replace (1 / 2) with (IZR 512 / 1024) by lra. apply roundToGrid_exact. }
  assert (Hm' : roundToGrid (- (1 / 2)) = - (1 / 2)).
  { replace (- (1 / 2)) with (IZR (-512) / 1024) by lra.
    apply roundToGrid_exact. }
  refine (proj1 (steer_bound_with_rounding roundToGrid 0 (1 / 1024)
                   grid_rounding (1 / 2) Hm Hm'
                   [(leftKeys, 0.05); (keys0, 0.016)] 0 _ _ _)).
  - repeat constructor; unfold frameOk; simpl; lra.
  - rewrite Rabs_R0. lra.
  - simpl. lra.
Defined.

(** C1 as worded fails in binary64.  With the angle at [maxSteer] and
    the left key held, a step of 4.5 ms yields an angle above
    [maxSteer]; and from the wheels straight, 1007 frames of 6.5 ms
    with the left key held end above [maxSteer]. *)
Lemma steer_exceeds_maxSteer :
  Binary64.steerOk Binary64.maxSteer = true
  /\ Binary64.steerOk
       (Binary64.steerStep leftKeys Binary64.dt4500us Binary64.maxSteer)
     = false
  /\ Binary64.steerOk Binary64.straight = true
  /\ Binary64.steerOk
       (Binary64.steerRun leftKeys Binary64.dt6500us 1007 Binary64.straight)
     = false.
Proof. repeat split; vm_compute; reflexivity. Qed.


(** ** Pulling away, dropping and falling *)

Lemma heading_identity : heading identity = vec3 0 0 1.
Proof. unfold heading, applyQuaternion, identity; simpl. f_equal; ring. Qed.

(** From rest, one 50 ms frame with the forward key held. *)
Lemma pull_away_velocity :
  integrateVelocity forwardLeftKeys 0.05 parked identity = vec3 0 0 (2 / 9).
Proof.
  unfold integrateVelocity. fold (heading identity).
  rewrite (normalize_unit _ (heading_unit identity (proj2 (proj2 identity_upright)))).
  rewrite heading_identity.
  change (velocity parked) with zero. rewrite length_zero.
  unfold throttle, maxEngine, add, divideScalar, multiplyScalar, zero; simpl.
  f_equal; lra.
Qed.

Lemma pull_away_steer : steerStep forwardLeftKeys 0.05 parked = PI / 24.
Proof. unfold steerStep, targetSteer, steerInput, lerp. simpl. lra. Qed.

Lemma pull_away_rate :
  angularVel (vec3 0 0 (2 / 9)) (wheelBase parked) (PI / 24)
  = (length (vec3 0 0 (2 / 9)) / wheelBase parked) * tan (PI / 24)
  /\ 0 < angularVel (vec3 0 0 (2 / 9)) (wheelBase parked) (PI / 24).
Proof.
  assert (Hrate : angularVel (vec3 0 0 (2 / 9)) (wheelBase parked) (PI / 24)
                  = (length (vec3 0 0 (2 / 9)) / wheelBase parked)
                    * tan (PI / 24)).
  { unfold angularVel; simpl vz.
    destruct (Req_dec_T (2 / 9) 0) as [H | _]; [lra | reflexivity]. }
  split; [exact Hrate |]. rewrite Hrate.
  rewrite length_axis_z, Rabs_pos_eq by lra. simpl wheelBase.
  apply Rmult_lt_0_compat.
  - apply Rdiv_lt_0_compat; lra.
  - pose proof PI_RGT_0. apply tan_gt_0; lra.
Qed.

(** C3 at an instance: the placeholder car pulling away from rest
    with the forward and left keys held.  The velocity after the
    integration points along +Z, so the turn rate is the formula's
    value, which is positive, and the rotation turns by it. *)
Lemma yaw_update_witness :
  let vel := integrateVelocity forwardLeftKeys 0.05 parked identity in
  let steer := steerStep forwardLeftKeys 0.05 parked in
  angularVel vel (wheelBase parked) steer
  = (length vel / wheelBase parked) * tan steer
  /\ 0 < angularVel vel (wheelBase parked) steer
  /\ exists m',
       mesh (@stepVehicle (flatEngine 0) forwardLeftKeys 0.05 parked) = Some m'
       /\ forall u, applyQuaternion u (mesh_quaternion m')
                    = rotateY (angularVel vel (wheelBase parked) steer * 0.05)
                              (applyQuaternion u identity).
Proof.
  intros vel steer.
  destruct (@yaw_update (flatEngine 0) forwardLeftKeys 0.05 parked
              (mkMesh (vec3 0 20 0) identity) eq_refl)
    as (Hformula & _ & m' & Hm' & _ & Hrot).
  split; [| split].
  - apply Hformula. simpl mesh_quaternion.
    rewrite pull_away_velocity. simpl. lra.
  - unfold vel, steer. rewrite pull_away_velocity, pull_away_steer.
    apply pull_away_rate.
  - exists m'. split; [exact Hm' | exact Hrot].
Defined.

(** C3 as worded fails on the first frame of an ordinary drive: the
    placeholder car, attached and at rest, with the forward and left
    keys held.  After the integration the velocity points straight
    along the heading, so its lateral component is 0 and the turn
    rate gated on it is 0, yet the code turns the car at the positive
    rate [(|velocity| / wheelBase) * tan(steerAngle)], because the
    world-space Z component of the velocity is not 0. *)
Lemma yaw_lateral_counterexample :
  let vel := integrateVelocity forwardLeftKeys 0.05 parked identity in
  let steer := steerStep forwardLeftKeys 0.05 parked in
  @run (flatEngine 0) [Attach identity] vehicle0 = parked
  /\ lateralComponent identity vel = 0
  /\ specAngularVel identity vel (wheelBase parked) steer = 0
  /\ angularVel vel (wheelBase parked) steer
     = (length vel / wheelBase parked) * tan steer
  /\ 0 < angularVel vel (wheelBase parked) steer
  /\ angularVel vel (wheelBase parked) steer
     <> specAngularVel identity vel (wheelBase parked) steer.
Proof.
  intros vel steer.
  assert (Hlat : lateralComponent identity vel = 0).
  { unfold vel. rewrite pull_away_velocity.
    unfold lateralComponent, dot, applyQuaternion, identity; simpl. ring. }
  assert (Hspec : specAngularVel identity vel (wheelBase parked) steer = 0).
  { unfold specAngularVel.
    destruct (Req_dec_T (lateralComponent identity vel) 0) as [_ | H];
      [reflexivity | contradiction]. }
  assert (Hrate : angularVel vel (wheelBase parked) steer
                  = (length vel / wheelBase parked) * tan steer
                  /\ 0 < angularVel vel (wheelBase parked) steer).
  { unfold vel, steer. rewrite pull_away_velocity, pull_away_steer.
    apply pull_away_rate. }
  split; [reflexivity |]. split; [exact Hlat |]. split; [exact Hspec |].
  split; [apply Hrate |]. split; [apply Hrate |].
  rewrite Hspec. destruct Hrate as [_ Hpos]. lra.
Qed.

Lemma flatEngine_height (h x z : R) :
  h <= 2000 -> @getGroundHeightAt (flatEngine h) x z = h.
Proof.
  intros Hh. unfold getGroundHeightAt. simpl intersectGround.
  rewrite flatGround_probe by exact Hh. reflexivity.
Qed.

Lemma length_axis_y (y : R) : length (vec3 0 y 0) = Rabs y.
Proof.
  unfold length; simpl.
  replace (0 * 0 + y * y + 0 * 0) with (Rsqr y) by (unfold Rsqr; ring).
  apply sqrt_Rsqr_abs.
Qed.

Lemma vertical_speed_le_length (a : Vector3) : Rabs (vy a) <= length a.
Proof.
  rewrite <- sqrt_Rsqr_abs. unfold length.
  apply sqrt_le_1; [apply Rle_0_sqr | apply sumsq_nonneg |].
  unfold Rsqr. nra.
Qed.

(** The drop of the first frame: from the placeholder attached at
    height 20 over flat ground of height 0, no key held. *)
Lemma first_frame_drop :
  @stepVehicle (flatEngine 0) keys0 0.05 parked = dropped.
Proof.
  unfold stepVehicle. change (mesh parked) with (Some (mkMesh (vec3 0 20 0) identity)).
  unfold stepMesh. cbv zeta.
  rewrite (integrateVelocity_rest keys0 0.05 parked _ eq_refl eq_refl eq_refl).
  rewrite angularVel_zero, yawStep_still, advance_zero.
  rewrite (steerStep_centred keys0 0.05 parked eq_refl eq_refl).
  rewrite flatEngine_height by lra.
  unfold dropped, zero; simpl.
  f_equal; [f_equal; f_equal; f_equal; lra | f_equal; lra].
Qed.

Lemma dropped_dampFactor : 99 / 100 <= dampFactor 0.05 dropped <= 1.
Proof.
  unfold dampFactor. simpl velocity. rewrite length_axis_y.
  rewrite Rabs_left by lra. simpl. lra.
Qed.

Lemma second_frame_speed :
  length (velocity dropped)
  < length (velocity (@stepVehicle (flatEngine 0) keys0 0.05 dropped)).
Proof.
  destruct (@suspension_height (flatEngine 0) keys0 0.05 dropped
              (mkMesh (vec3 0 16.135475 0) identity) eq_refl identity_upright)
    as (m' & _ & Hvy & _).
  rewrite flatEngine_height in Hvy by lra.
  rewrite (integrateVelocity_coast keys0 0.05 dropped _ eq_refl eq_refl) in Hvy.
  pose proof dropped_dampFactor as Hf.
  apply Rlt_le_trans
    with (Rabs (vy (velocity (@stepVehicle (flatEngine 0) keys0 0.05 dropped))));
    [| apply vertical_speed_le_length].
  remember (vy (velocity (@stepVehicle (flatEngine 0) keys0 0.05 dropped)))
    as V eqn:HV. clear HV.
  remember (dampFactor 0.05 dropped) as f eqn:Hfeq. clear Hfeq.
  simpl in Hvy.
  change (velocity dropped) with (vec3 0 (-77.2905) 0).
  rewrite length_axis_y, (Rabs_left (-77.2905)) by lra.
  rewrite Rabs_left; nra.
Qed.

(** C4 as worded fails from tick to tick, and in binary64 also within
    one integration.  The placeholder car, attached at rest over flat
    ground and left alone, falls: after the first frame its speed is
    77.2905, after the second it is larger, although no throttle key
    is held, because line 228 adds the spring and gravity to the
    vertical velocity after the resistance has acted.  And in binary64
    the smallest positive velocity is left unchanged by the
    integration: the speed neither decreases nor reaches zero. *)
Lemma coasting_counterexample :
  @run (flatEngine 0) [Attach identity; Frame keys0 0.05] vehicle0 = dropped
  /\ @run (flatEngine 0) [Attach identity; Frame keys0 0.05; Frame keys0 0.05]
       vehicle0
     = @stepVehicle (flatEngine 0) keys0 0.05 dropped
  /\ velocity dropped <> zero
  /\ length (velocity dropped)
     < length (velocity (@stepVehicle (flatEngine 0) keys0 0.05 dropped))
  /\ Binary64.integrateVelocity keys0 Binary64.dt50ms Binary64.tinyVelocity
       Binary64.identity
     = Binary64.tinyVelocity.
Proof.
  split; [exact first_frame_drop |].
  split.
  { unfold run. cbn [fold_left apply].
    change (attachMesh identity vehicle0) with parked.
    rewrite first_frame_drop. reflexivity. }
  split.
  { intros H. apply (f_equal vy) in H. simpl in H. lra. }
  split; [exact second_frame_speed |].
  vm_compute. reflexivity.
Qed.

(** ** Orientation about the vertical axis *)

Lemma yawStep_level (q : Quaternion) (rate dt : R) :
  yawOnly q -> yawOnly (yawStep q rate dt).
Proof.
  intros (Hx & Hz). split.
  - unfold yawStep, setFromAxisAngle, multiplyQuaternions; simpl.
    rewrite Hx, Hz. ring.
  - unfold yawStep, setFromAxisAngle, multiplyQuaternions; simpl.
    rewrite Hx, Hz. ring.
Qed.

Lemma apply_level (E : Engine) (i : Input) (v : Vehicle) :
  attachLevel i -> level v -> level (apply v i).
Proof.
  destruct i as [k dt | | q]; simpl; intros Hi Hv.
  - unfold level, stepVehicle in *. destruct (mesh v) as [m |] eqn:Hm.
    + simpl. apply yawStep_level, Hv.
    + rewrite Hm. exact I.
  - unfold level, resetVehicle in *.
    destruct (mesh v) eqn:Hm; simpl; [split; reflexivity |].
    rewrite Hm. exact I.
  - exact Hi.
Qed.

(** The yaw update never introduces pitch or roll: along every run in
    which the attached models carry a rotation about the vertical
    axis only (as the placeholder car does), the X and Z components of
    the mesh rotation are 0 after every input, for any keys and time
    steps. *)
Theorem orientation_stays_level (E : Engine) (inputs : list Input)
    (v : Vehicle) :
  level v -> Forall attachLevel inputs -> Forall level (trace inputs v).
Proof.
  intros Hv Hin. revert v Hv.
  induction Hin as [| i rest Hi _ IH]; intros v Hv; simpl.
  - constructor.
  - pose proof (apply_level E i v Hi Hv) as Hv'.
    constructor; [exact Hv' | apply IH, Hv'].
Qed.

(** The placeholder car attached, driven off with the forward and left
    keys for two frames (it turns from the first frame on), then
    reset. *)
Lemma orientation_stays_level_witness :
  Forall level
    (@trace (flatEngine 0)
       [Attach identity; Frame forwardLeftKeys 0.05;
        Frame forwardLeftKeys 0.05; Reset]
       vehicle0).
Proof.
  apply orientation_stays_level.
  - exact I.
  - repeat constructor.
Defined.

Lemma heading_level (q : Quaternion) :
  yawOnly q ->
  heading q = vec3 (2 * qy q * qw q) 0 (qw q * qw q - qy q * qy q).
Proof.
  intros (Hx & Hz). unfold heading, applyQuaternion; simpl.
  rewrite Hx, Hz. f_equal; ring.
Qed.

(** A vehicle that only moves vertically stays on its vertical line.
    With a rotation about the vertical axis, no velocity along X or
    Z, the wheels straight, no throttle key and no net steering
    input, a step of any length over any ground leaves the rotation,
    the X and Z position and the steering angle as they are and keeps
    the velocity vertical. *)
Theorem falling_stays_vertical (E : Engine) (k : Keys) (dt : R)
    (v : Vehicle) (m : Mesh) :
  mesh v = Some m -> yawOnly (mesh_quaternion m) ->
  vx (velocity v) = 0 -> vz (velocity v) = 0 -> steerAngle v = 0 ->
  forward k = false -> back k = false -> left k = right k ->
  exists m',
    mesh (stepVehicle k dt v) = Some m'
    /\ mesh_quaternion m' = mesh_quaternion m
    /\ vx (mesh_position m') = vx (mesh_position m)
    /\ vz (mesh_position m') = vz (mesh_position m)
    /\ vx (velocity (stepVehicle k dt v)) = 0
    /\ vz (velocity (stepVehicle k dt v)) = 0
    /\ steerAngle (stepVehicle k dt v) = 0.
Proof.
  intros Hm Hq Hvx Hvz Hs Hf Hb Hlr.
  unfold stepVehicle. rewrite Hm. eexists. split; [reflexivity |].
  unfold stepMesh. cbv zeta.
  cbn [mesh_quaternion mesh_position velocity steerAngle vx vy vz].
  rewrite (integrateVelocity_coast k dt v _ Hf Hb).
  set (f := dampFactor dt v).
  assert (Hvel : multiplyScalar (velocity v) f = vec3 0 (vy (velocity v) * f) 0).
  { unfold multiplyScalar. rewrite Hvx, Hvz. f_equal; ring. }
  rewrite Hvel.
  assert (Hrate : forall wb st, angularVel (vec3 0 (vy (velocity v) * f) 0) wb st = 0).
  { intros wb st. unfold angularVel; simpl.
    destruct (Req_dec_T 0 0) as [_ | H]; [reflexivity | contradiction]. }
  rewrite Hrate, yawStep_still.
  assert (Hadv : advance (mesh_position m) (mesh_quaternion m)
                   (vec3 0 (vy (velocity v) * f) 0) dt
                 = mesh_position m).
  { unfold advance. fold (heading (mesh_quaternion m)).
    rewrite (heading_level _ Hq). unfold dot; simpl.
    replace (0 * (2 * qy (mesh_quaternion m) * qw (mesh_quaternion m))
             + vy (velocity v) * f * 0
             + 0 * (qw (mesh_quaternion m) * qw (mesh_quaternion m)
                    - qy (mesh_quaternion m) * qy (mesh_quaternion m)))
      with 0 by ring.
    rewrite (proj2 (sign_cases 0) eq_refl).
    unfold addScaledVector. destruct (mesh_position m) as [x y z]; simpl.
    f_equal; ring. }
  rewrite Hadv. simpl.
  repeat split; try reflexivity.
  apply steerStep_centred; assumption.
Qed.

(** The car of the first frame's drop, one frame on. *)
Lemma falling_stays_vertical_witness :
  exists m',
    mesh (@stepVehicle (flatEngine 0) keys0 0.05 dropped) = Some m'
    /\ mesh_quaternion m' = identity
    /\ vx (mesh_position m') = 0
    /\ vz (mesh_position m') = 0.
Proof.
  destruct (falling_stays_vertical (flatEngine 0) keys0 0.05 dropped
              (mkMesh (vec3 0 16.135475 0) identity)
              eq_refl (conj eq_refl eq_refl) eq_refl eq_refl eq_refl
              eq_refl eq_refl eq_refl)
    as (m' & Hm' & Hq & Hx & Hz & _).
  exists m'. repeat split; assumption.
Defined.

(** ** Missing ground *)

(** When the probe under the vehicle's new position finds no surface,
    the sentinel height -1000 enters the spring like any ground
    height: for an upright vehicle at height [y >= -999] the vertical
    velocity after the step is that after the integration minus
    [(80 * (y + 999.2) + 9.81) * dt], which for [dt > 0] is a larger
    drop than the [9.81 * dt] of a free fall. *)
Theorem no_ground_pull (E : Engine) (k : Keys) (dt : R) (v : Vehicle)
    (m : Mesh) :
  mesh v = Some m -> uprightQ (mesh_quaternion m) ->
  0 < dt -> -999 <= vy (mesh_position m) ->
  (forall m', mesh (stepVehicle k dt v) = Some m' ->
     intersectGround (probe (vx (mesh_position m')) (vz (mesh_position m')))
     = []) ->
  let vel := integrateVelocity k dt v (mesh_quaternion m) in
  vy (velocity (stepVehicle k dt v))
  = vy vel - (80 * (vy (mesh_position m) + 999.2) + 9.81) * dt
  /\ vy (velocity (stepVehicle k dt v)) < vy vel - 9.81 * dt.
Proof.
  intros Hm Hup Hdt Hy Hvoid vel.
  destruct (suspension_height k dt v m Hm Hup) as (m' & Hm' & Hv & _).
  assert (Hg : getGroundHeightAt (vx (mesh_position m')) (vz (mesh_position m'))
               = -1000).
  { unfold getGroundHeightAt. rewrite (Hvoid m' Hm'). reflexivity. }
  rewrite Hg in Hv. fold vel in Hv. rewrite Hv.
  split; [lra | nra].
Qed.

Lemma offGround_step_position (m' : Mesh) :
  mesh (@stepVehicle (patchEngine 0) keys0 0.05 offGround) = Some m' ->
  vx (mesh_position m') = 5000.
Proof.
  unfold stepVehicle.
  change (mesh offGround) with (Some (mkMesh (vec3 5000 20 0) identity)).
  unfold stepMesh. cbv zeta.
  rewrite (integrateVelocity_rest keys0 0.05 offGround _ eq_refl eq_refl eq_refl).
  rewrite angularVel_zero, yawStep_still, advance_zero.
  cbn [mesh]. intros H. injection H as <-. reflexivity.
Qed.

(** The placeholder car beyond the edge of a ground that reaches 1024
    from the origin: the probe under it finds nothing. *)
Lemma no_ground_pull_witness :
  vy (velocity (@stepVehicle (patchEngine 0) keys0 0.05 offGround))
  < vy (integrateVelocity keys0 0.05 offGround identity) - 9.81 * 0.05.
Proof.
  refine (proj2 (no_ground_pull (patchEngine 0) keys0 0.05 offGround
                   (mkMesh (vec3 5000 20 0) identity)
                   eq_refl identity_upright _ _ _)).
  - lra.
  - simpl. lra.
  - intros m' Hm'. rewrite (offGround_step_position m' Hm').
    unfold probe. simpl. unfold patchGround. simpl.
    destruct (Rle_dec (Rabs 5000) 1024) as [H | _]; [| reflexivity].
    rewrite Rabs_pos_eq in H; lra.
Defined.
